(** * The MBC tag scraper (ui/mitre_tags/mitreScraperMBC.py)

    A shallow embedding of the script that cuts the Malware Behavior Catalog
    SVG matrix into group chunks, rebuilds the tactic -> technique tree from
    them, embeds parent names into sub-technique names and writes one tag per
    line.

    Python values are modelled as follows.
    - [str] is a list of characters ([pystr]); one [ascii] stands for one
      character.  Indices are [Z], because [str.find] answers [-1] and
      slices accept negative bounds.
    - [dict] is an insertion-ordered association list with unique keys:
      assigning to a present key keeps its position, assigning to a new key
      appends.
    - A call that can raise returns a [result]; the only exceptions the
      script can hit after the download are [IndexError], [KeyError] and
      [AttributeError]. *)

From Stdlib Require Import List Ascii String ZArith Lia Bool.
Import ListNotations.

Open Scope list_scope.
Open Scope Z_scope.

(** ** Python strings *)

Definition pystr := list ascii.

(** A literal of the script. *)
Definition py (s : string) : pystr := list_ascii_of_string s.

(** The newline character. *)
Definition NL : ascii := "010"%char.

Fixpoint pystr_eqb (a b : pystr) : bool :=
  match a, b with
  | [], [] => true
  | x :: a', y :: b' => Ascii.eqb x y && pystr_eqb a' b'
  | _, _ => false
  end.

(** [startswith s p]: [s.startswith(p)]. *)
Fixpoint startswith (s p : pystr) : bool :=
  match p, s with
  | [], _ => true
  | _ :: _, [] => false
  | a :: p', b :: s' => Ascii.eqb a b && startswith s' p'
  end.

(** The lowest index at which [p] occurs in [s], if any. *)
Fixpoint find_index (s p : pystr) : option nat :=
  if startswith s p then Some 0%nat
  else match s with
       | [] => None
       | _ :: s' => option_map S (find_index s' p)
       end.

(** [find s p]: [s.find(p)], [-1] when [p] does not occur. *)
Definition find (s p : pystr) : Z :=
  match find_index s p with
  | Some i => Z.of_nat i
  | None => -1
  end.

(** [contains s p]: [s.__contains__(p)]. *)
Definition contains (s p : pystr) : bool :=
  match find_index s p with
  | Some _ => true
  | None => false
  end.

Definition len (s : pystr) : Z := Z.of_nat (List.length s).

(** How a slice bound is adjusted: a negative bound counts from the end, and
    the outcome is clamped to [0 .. len]. *)
Definition adjust_index (n i : Z) : Z :=
  let i := if i <? 0 then i + n else i in
  if i <? 0 then 0 else if n <? i then n else i.

(** [slice s a b]: [s[a:b]]; empty when the adjusted bounds cross. *)
Definition slice (s : pystr) (a b : Z) : pystr :=
  let a' := adjust_index (len s) a in
  let b' := adjust_index (len s) b in
  firstn (Z.to_nat (b' - a')) (skipn (Z.to_nat a') s).

(** [slice_from s a]: [s[a:]]. *)
Definition slice_from (s : pystr) (a : Z) : pystr :=
  skipn (Z.to_nat (adjust_index (len s) a)) s.

(** [split s sep]: [s.split(sep)] for a separator of one character, the only
    kind the script uses. The answer is never empty. *)
Fixpoint split (s : pystr) (sep : ascii) : list pystr :=
  match s with
  | [] => [[]]
  | c :: s' =>
      if Ascii.eqb c sep then [] :: split s' sep
      else match split s' sep with
           | [] => [[c]]
           | w :: ws => (c :: w) :: ws
           end
  end.

(** The characters [str.isspace] accepts, among the first 256 code points. *)
Definition isspace (c : ascii) : bool :=
  let n := nat_of_ascii c in
  ((9 <=? n) && (n <=? 13) || (28 <=? n) && (n <=? 32)
   || (n =? 133) || (n =? 160))%nat.

Fixpoint lstrip (s : pystr) : pystr :=
  match s with
  | [] => []
  | c :: s' => if isspace c then lstrip s' else s
  end.

Definition rstrip (s : pystr) : pystr := rev (lstrip (rev s)).

(** [strip s]: [s.strip()]. *)
Definition strip (s : pystr) : pystr := rstrip (lstrip s).

(** Scan of [str.replace] for a non-empty [old]: [skip] counts the characters
    of a matched occurrence that are still to be dropped. *)
Fixpoint replace_scan (s old new : pystr) (skip : nat) : pystr :=
  match s with
  | [] => []
  | c :: s' =>
      match skip with
      | S k => replace_scan s' old new k
      | O =>
          if startswith s old
          then new ++ replace_scan s' old new (List.length old - 1)
          else c :: replace_scan s' old new 0
      end
  end.

(** [replace s old new]: [s.replace(old, new)], every occurrence from left to
    right, without overlap; an empty [old] matches before every character and
    at the end. *)
Definition replace (s old new : pystr) : pystr :=
  match old with
  | [] => new ++ flat_map (fun c => c :: new) s
  | _ :: _ => replace_scan s old new 0
  end.

(** ** Exceptions and results *)

Inductive exn : Type :=
| IndexError
| KeyError (key : pystr)
| AttributeError
| UserError (class_name : string).
(** [UserError] stands for an exception class a program defines and raises
    itself; the script defines none and has no [raise] statement. *)

Inductive result (A : Type) : Type :=
| Ok (a : A)
| Raise (e : exn).
Arguments Ok {A} a.
Arguments Raise {A} e.

Definition bind {A B : Type} (r : result A) (k : A -> result B) : result B :=
  match r with
  | Ok a => k a
  | Raise e => Raise e
  end.

Notation "x <- r ;; k" := (bind r (fun x => k))
  (at level 61, r at next level, right associativity).
Notation "' p <- r ;; k" := (bind r (fun x => let p := x in k))
  (at level 61, p pattern, r at next level, right associativity).

(** ** Python dictionaries *)

Definition dict (V : Type) := list (pystr * V).

Fixpoint dict_get {V : Type} (d : dict V) (k : pystr) : option V :=
  match d with
  | [] => None
  | (k', v) :: d' => if pystr_eqb k' k then Some v else dict_get d' k
  end.

(** [dict_set d k v]: [d[k] = v]. *)
Fixpoint dict_set {V : Type} (d : dict V) (k : pystr) (v : V) : dict V :=
  match d with
  | [] => [(k, v)]
  | (k', v') :: d' =>
      if pystr_eqb k' k then (k', v) :: d' else (k', v') :: dict_set d' k v
  end.

Definition keys {V : Type} (d : dict V) : list pystr := map fst d.

(** [d[k]], which raises [KeyError] on an absent key. *)
Definition subscript {V : Type} (d : dict V) (k : pystr) : result V :=
  match dict_get d k with
  | Some v => Ok v
  | None => Raise (KeyError k)
  end.

(** A dictionary holds each key once. *)
Definition dict_wf {V : Type} (d : dict V) : Prop := NoDup (keys d).

(** [l[i]] for a list, raising [IndexError] out of range. *)
Definition item {A : Type} (l : list A) (i : nat) : result A :=
  match nth_error l i with
  | Some a => Ok a
  | None => Raise IndexError
  end.

(** ** The chunker: [cutByPhrases] *)

(** The variables the [while] loop of [cutByPhrases] updates. *)
Record cut_state : Type := mk_cut
  { text : pystr;
    cutResults : list pystr }.

(** One turn of the loop: [None] when the loop condition fails. *)
Definition cut_step (phrase1 phrase2 : pystr) (st : cut_state)
  : option cut_state :=
  if contains (text st) phrase1 && contains (text st) phrase2 then
    let index1 := find (text st) phrase1 in
    let index2 := find (text st) phrase2 in
    let cut := slice (text st) (index1 + len phrase1) index2 in
    Some {| text := slice_from (text st) (index2 + len phrase2);
            cutResults := cutResults st ++ [cut] |}
  else None.

(** The loop, run for at most [fuel] turns; [None] when the fuel runs out
    before the loop condition fails. *)
Fixpoint cut_loop (fuel : nat) (phrase1 phrase2 : pystr) (st : cut_state)
  : option (list pystr) :=
  match cut_step phrase1 phrase2 st with
  | None => Some (cutResults st)
  | Some st' =>
      match fuel with
      | O => None
      | S fuel' => cut_loop fuel' phrase1 phrase2 st'
      end
  end.

Definition cutByPhrases (text0 phrase1 phrase2 : pystr)
  : option (list pystr) :=
  cut_loop (List.length text0) phrase1 phrase2
           {| text := text0; cutResults := [] |}.

(** ** The field extractors *)

Definition extractPattern (s phrase1 phrase2 : pystr) : pystr :=
  slice s (find s phrase1 + len phrase1) (find s phrase2).

Definition extractByKeyword (inputList : list pystr) (keyword : pystr)
  : list pystr :=
  filter (fun line => contains line keyword) inputList.

(** The first half of [extractTechnique]: the label rebuilt from the
    [<tspan] lines of a chunk, joined by single spaces. *)
Definition labelText (chunk : pystr) : result pystr :=
  let split_ := split chunk NL in
  let dataLines :=
    map (fun line => extractPattern line (py ">") (py "</tspan"))
        (extractByKeyword split_ (py "<tspan")) in
  first <- item dataLines 0 ;;
  Ok (fold_left (fun result_ line => result_ ++ py " " ++ line)
                (tl dataLines) first).

Definition extractTechnique (chunk : pystr) : result (pystr * pystr) :=
  result_ <- labelText chunk ;;
  let techniqueSplit := split result_ ":"%char in
  t0 <- item techniqueSplit 0 ;;
  t1 <- item techniqueSplit 1 ;;
  Ok (strip t0, strip t1).

Fixpoint first_tspan (lines : list pystr) : option pystr :=
  match lines with
  | [] => None
  | s :: rest =>
      if contains s (py "tspan")
      then Some (extractPattern s (py ">") (py "</tspan"))
      else first_tspan rest
  end.

(** [extractTactic] answers [None] when no line mentions [tspan]. *)
Definition extractTactic (chunk : pystr) : option pystr :=
  first_tspan (split chunk NL).

(** ** The traversal loop *)

Definition TacticGroup := dict pystr.
Definition TaxonomyTree := dict TacticGroup.

Record loop_state : Type := mk_loop
  { allResults : TaxonomyTree;
    tacticGroup : TacticGroup }.

(** The tactic key made from a label: the [replace] call of the loop. *)
Definition tacticKey (tacticName : pystr) : pystr :=
  replace tacticName (py " Micro-objective") [].

(** The body of [for chunk in cutData]. Calling [replace] on the [None]
    that [extractTactic] may answer raises [AttributeError]. *)
Definition loop_body (st : loop_state) (chunk : pystr) : result loop_state :=
  if contains chunk (py "technique") then
    '(idTag, name) <- extractTechnique chunk ;;
    Ok {| allResults := allResults st;
          tacticGroup := dict_set (tacticGroup st) idTag name |}
  else if contains chunk (py "tactic-label") then
    match extractTactic chunk with
    | None => Raise AttributeError
    | Some tacticName =>
        let tacticName := tacticKey tacticName in
        Ok {| allResults := dict_set (allResults st) tacticName (tacticGroup st);
              tacticGroup := [] |}
    end
  else Ok st.

Fixpoint main_loop (cutData : list pystr) (st : loop_state)
  : result loop_state :=
  match cutData with
  | [] => Ok st
  | chunk :: rest => st' <- loop_body st chunk ;; main_loop rest st'
  end.

Definition init_state : loop_state :=
  {| allResults := []; tacticGroup := [] |}.

(** [allResults] as the loop leaves it. *)
Definition build_tree (cutData : list pystr) : result TaxonomyTree :=
  st <- main_loop cutData init_state ;; Ok (allResults st).

(** ** The normalizer: [postProcessing] *)

(** The body of [for key in group], on the live group. *)
Definition rewrite_key (group : TacticGroup) (key : pystr)
  : result TacticGroup :=
  if contains key (py ".") then
    parentKey <- item (split key "."%char) 0 ;;
    parentValue <- subscript group parentKey ;;
    oldValue <- subscript group key ;;
    let newValue := parentValue ++ py "::" ++ oldValue in
    Ok (dict_set group key newValue)
  else Ok group.

(** The inner loop over the keys the group had when the loop began; the
    group it reads and writes is the live one. *)
Fixpoint for_keys (ks : list pystr) (group : TacticGroup)
  : result TacticGroup :=
  match ks with
  | [] => Ok group
  | key :: ks' => group' <- rewrite_key group key ;; for_keys ks' group'
  end.

Definition process_group (group : TacticGroup) : result TacticGroup :=
  for_keys (keys group) group.

(** The outer loop. Each group of the tree is a dictionary of its own (the
    traversal loop binds a fresh one after every commit), so writing into
    one leaves the others alone. *)
Fixpoint for_tactics (ts : list pystr) (tree : TaxonomyTree)
  : result TaxonomyTree :=
  match ts with
  | [] => Ok tree
  | tactic :: ts' =>
      group <- subscript tree tactic ;;
      group' <- process_group group ;;
      for_tactics ts' (dict_set tree tactic group')
  end.

Definition postProcessing (tree : TaxonomyTree) : result TaxonomyTree :=
  for_tactics (keys tree) tree.

(** ** The writer *)

Definition tag_line (tactic name key : pystr) : pystr :=
  tactic ++ py "::" ++ name ++ py " " ++ key ++ [NL].

(** The lines written, in order. The loops run over the keys and read
    [group[key]]; on a dictionary that is each entry in turn. *)
Definition writer (tree : TaxonomyTree) : list pystr :=
  flat_map (fun tg : pystr * TacticGroup =>
              map (fun kv : pystr * pystr => tag_line (fst tg) (snd kv) (fst kv))
                  (snd tg))
           tree.

(** What the script writes for a chunk sequence; nothing when a step raises. *)
Definition tags_of_chunks (cutData : list pystr) : result (list pystr) :=
  tree <- build_tree cutData ;;
  tree' <- postProcessing tree ;;
  Ok (writer tree').

(** The script after the download. *)
Definition script (rawData : pystr) : option (result (list pystr)) :=
  let rawData := replace rawData (py "><") [">"%char; NL; "<"%char] in
  option_map tags_of_chunks (cutByPhrases rawData (py "<g") (py "</g>")).

(** ** The normalizer the specification words describe *)

(** The reference normalizer: parent names are read from a snapshot of the
    group taken before any rewrite, and every entry is rewritten once. *)
Definition parent_id (key : pystr) : pystr := hd [] (split key "."%char).

Definition normalize_entry (snapshot : TacticGroup) (entry : pystr * pystr)
  : result (pystr * pystr) :=
  let (id, name) := entry in
  if contains id (py ".") then
    parentName <- subscript snapshot (parent_id id) ;;
    Ok (id, parentName ++ py "::" ++ name)
  else Ok entry.

Fixpoint map_result {A B : Type} (f : A -> result B) (l : list A)
  : result (list B) :=
  match l with
  | [] => Ok []
  | a :: l' => b <- f a ;; bs <- map_result f l' ;; Ok (b :: bs)
  end.

Definition normalize_group_snapshot (group : TacticGroup)
  : result TacticGroup :=
  map_result (normalize_entry group) group.

Definition normalize_snapshot (tree : TaxonomyTree) : result TaxonomyTree :=
  map_result (fun tg : pystr * TacticGroup =>
                group' <- normalize_group_snapshot (snd tg) ;;
                Ok (fst tg, group'))
             tree.

(** ** Sample chunks *)

Definition technique_chunk (label : string) : pystr :=
  py " class='technique'>" ++ [NL] ++ py "<text>" ++ [NL]
  ++ py "<tspan x='4'>" ++ py label ++ py "</tspan>" ++ [NL]
  ++ py "</text>" ++ [NL].

Definition tactic_label_chunk (label : string) : pystr :=
  py " class='tactic-label'>" ++ [NL] ++ py "<text>" ++ [NL]
  ++ py "<tspan x='4'>" ++ py label ++ py "</tspan>" ++ [NL]
  ++ py "</text>" ++ [NL].

(** ** Words of the specification and of the loop, as definitions *)

(** The chunks the loop treats as tactic labels: those of the [elif]. *)
Definition is_tactic_label (chunk : pystr) : bool :=
  negb (contains chunk (py "technique")) && contains chunk (py "tactic-label").

(** The chunks the loop treats as techniques: those of the [if]. *)
Definition is_technique (chunk : pystr) : bool :=
  contains chunk (py "technique").

(** The group a run of technique entries builds on top of [group]. *)
Definition add_entries (entries : list (pystr * pystr)) (group : TacticGroup)
  : TacticGroup :=
  fold_left (fun g e => dict_set g (fst e) (snd e)) entries group.

(** [entries] are what [extractTechnique] answers for the technique chunks
    of [chunks], in order. *)
Definition extracted (chunks : list pystr) (entries : list (pystr * pystr))
  : Prop :=
  Forall2 (fun c e => extractTechnique c = Ok e)
          (filter is_technique chunks) entries.

(** The suffix removal the specification words describe: the label without
    its ending [suffix] when it ends so, the label itself otherwise. *)
Definition endswith (s suffix : pystr) : bool :=
  startswith (rev s) (rev suffix).

Definition removesuffix (s suffix : pystr) : pystr :=
  if endswith s suffix
  then firstn (List.length s - List.length suffix) s
  else s.

(** The two parts of a label the specification words name: what stands
    before the first separator, and all that stands after it. *)
Fixpoint before_first (sep : ascii) (s : pystr) : pystr :=
  match s with
  | [] => []
  | c :: s' => if Ascii.eqb c sep then [] else c :: before_first sep s'
  end.

Fixpoint after_first (sep : ascii) (s : pystr) : pystr :=
  match s with
  | [] => []
  | c :: s' => if Ascii.eqb c sep then s' else after_first sep s'
  end.

(** ** Words for the further properties *)

(** A document written group by group: before each group some text, then
    the start marker, the group's body and the end marker; [tail] ends
    the document. *)
Fixpoint render_groups (groups : list (pystr * pystr)) (tail : pystr)
  : pystr :=
  match groups with
  | [] => tail
  | (junk, body) :: rest =>
      junk ++ py "<g" ++ body ++ py "</g>" ++ render_groups rest tail
  end.

(** What the text before a group and its body may not hold. *)
Definition plain_group (g : pystr * pystr) : Prop :=
  contains (fst g) (py "<g") = false /\
  contains (fst g) (py "</g>") = false /\
  contains (snd g) (py "</g>") = false.

(** The chunks one of the two branches of the loop takes. *)
Definition relevant (chunk : pystr) : bool :=
  contains chunk (py "technique") || contains chunk (py "tactic-label").

(** The tactics of a tree in order, each with the ids of its group in
    order: what is left of a tree when the names are put aside. *)
Definition shape (tree : TaxonomyTree) : list (pystr * list pystr) :=
  map (fun tg : pystr * TacticGroup => (fst tg, keys (snd tg))) tree.

(** No id of the tree has a dot. *)
Definition dot_free (tree : TaxonomyTree) : Prop :=
  forall tactic group key,
    In (tactic, group) tree -> In key (keys group) ->
    contains key (py ".") = false.

(** The loop keeps every dictionary it holds free of repeated keys. *)
Definition state_wf (st : loop_state) : Prop :=
  dict_wf (allResults st) /\
  (forall tactic group, In (tactic, group) (allResults st) -> dict_wf group) /\
  dict_wf (tacticGroup st).



(** ** Sample trees and chunk sequences *)

Definition sample_tree : TaxonomyTree :=
  [(py "Collection",
    [(py "T001", py "Alpha"); (py "T001.002", py "Beta");
     (py "T001.002.003", py "Gamma")]);
   (py "Defense Evasion", [(py "B0002", py "Delta")])].

Definition orphan_tree : TaxonomyTree :=
  [(py "Collection", [(py "T001.002", py "Beta")])].

Definition committed_chunks : list pystr :=
  [technique_chunk "T1:Alpha"; tactic_label_chunk "Collection"].

Definition trailing_chunks : list pystr :=
  [technique_chunk "T9:Lost"; py " class='legend'>"].

(** Each key of a literal dictionary stands once. *)
Ltac nodup_keys :=
  unfold dict_wf; simpl;
  repeat (constructor; [simpl; intuition discriminate|]); constructor.

(** ** The samples, run *)

Example sample_extractTechnique :
  extractTechnique (technique_chunk "B0001.002: Debugger Detection")
  = Ok (py "B0001.002", py "Debugger Detection").
Proof. vm_compute. reflexivity. Qed.

Example sample_cut :
  cutByPhrases (py "<svg><g a>x</g>junk<g b>y</g></svg>") (py "<g") (py "</g>")
  = Some [py " a>x"; py " b>y"].
Proof. vm_compute. reflexivity. Qed.

Example sample_run :
  tags_of_chunks [technique_chunk "T1:Alpha"; technique_chunk "T1.2: Beta";
                  tactic_label_chunk "Collection Micro-objective"]
  = Ok [py "Collection::Alpha T1" ++ [NL]; py "Collection::Alpha::Beta T1.2" ++ [NL]].
Proof. vm_compute. reflexivity. Qed.

(** * Properties of the string primitives *)

Section StringFacts.

Lemma pystr_eqb_eq (a b : pystr) : pystr_eqb a b = true <-> a = b.
Proof.
  revert b; induction a as [|x a IH]; intros [|y b]; simpl;
    try (split; [discriminate | congruence]); try tauto.
  rewrite andb_true_iff, Ascii.eqb_eq, IH. split.
  - intros [-> ->]; reflexivity.
  - intros H; injection H as -> ->; auto.
Qed.

Lemma pystr_eqb_refl (a : pystr) : pystr_eqb a a = true.
Proof. apply pystr_eqb_eq; reflexivity. Qed.

Lemma pystr_eqb_neq (a b : pystr) : pystr_eqb a b = false <-> a <> b.
Proof.
  rewrite <- pystr_eqb_eq. destruct (pystr_eqb a b); split; congruence.
Qed.

Lemma startswith_app (s p : pystr) :
  startswith s p = true <-> exists rest, s = p ++ rest.
Proof.
  revert s; induction p as [|a p IH]; intros [|b s]; simpl.
  - split; [exists []; reflexivity | reflexivity].
  - split; [exists (b :: s); reflexivity | reflexivity].
  - split; [discriminate | intros [r Hr]; discriminate].
  - rewrite andb_true_iff, Ascii.eqb_eq, IH. split.
    + intros [-> [r ->]]. exists r; reflexivity.
    + intros [r Hr]. injection Hr as -> ->. split; eauto.
Qed.

Lemma startswith_length (s p : pystr) :
  startswith s p = true -> (List.length p <= List.length s)%nat.
Proof.
  intros H; apply startswith_app in H as [r ->].
  rewrite length_app; lia.
Qed.

Lemma find_index_here (s p : pystr) :
  startswith s p = true -> find_index s p = Some 0%nat.
Proof. intros H; destruct s; cbn [find_index]; rewrite H; reflexivity. Qed.

Lemma find_index_nil (p : pystr) (i : nat) :
  find_index [] p = Some i -> i = 0%nat /\ p = [].
Proof. destruct p; simpl; [intros [= <-]; auto | discriminate]. Qed.

Lemma find_index_cons (c : ascii) (s p : pystr) :
  startswith (c :: s) p = false ->
  find_index (c :: s) p = option_map S (find_index s p).
Proof. intros H; cbn [find_index]; rewrite H; reflexivity. Qed.

(** An index answered by [find_index] is an occurrence: the text splits
    there. *)
Lemma find_index_split (s p : pystr) (i : nat) :
  find_index s p = Some i ->
  s = firstn i s ++ p ++ skipn (i + List.length p) s.
Proof.
  revert i; induction s as [|c s IH]; intros i Hf.
  - apply find_index_nil in Hf as [-> ->]; reflexivity.
  - destruct (startswith (c :: s) p) eqn:E.
    + rewrite (find_index_here _ _ E) in Hf. injection Hf as <-.
      apply startswith_app in E as [r Hr].
      change (c :: s = p ++ skipn (List.length p) (c :: s)).
      rewrite Hr, skipn_app, skipn_all, Nat.sub_diag; reflexivity.
    + rewrite (find_index_cons _ _ _ E) in Hf.
      destruct (find_index s p) as [j|] eqn:F; simpl in Hf; [|discriminate].
      injection Hf as <-. simpl. f_equal. apply IH; reflexivity.
Qed.

Lemma find_index_bound (s p : pystr) (i : nat) :
  find_index s p = Some i -> (i + List.length p <= List.length s)%nat.
Proof.
  revert i; induction s as [|c s IH]; intros i Hf.
  - apply find_index_nil in Hf as [-> ->]; simpl; lia.
  - destruct (startswith (c :: s) p) eqn:E.
    + rewrite (find_index_here _ _ E) in Hf. injection Hf as <-.
      apply startswith_length in E. lia.
    + rewrite (find_index_cons _ _ _ E) in Hf.
      destruct (find_index s p) as [j|] eqn:F; simpl in Hf; [|discriminate].
      injection Hf as <-. specialize (IH j eq_refl). simpl; lia.
Qed.

(** No occurrence starts before the index [find_index] answers. *)
Lemma find_index_least (s p : pystr) (i j : nat) :
  find_index s p = Some i -> (j < i)%nat -> startswith (skipn j s) p = false.
Proof.
  revert i j; induction s as [|c s IH]; intros i j Hf Hj.
  - apply find_index_nil in Hf as [-> _]; lia.
  - destruct (startswith (c :: s) p) eqn:E.
    + rewrite (find_index_here _ _ E) in Hf. injection Hf as <-; lia.
    + rewrite (find_index_cons _ _ _ E) in Hf.
      destruct (find_index s p) as [k|] eqn:F; simpl in Hf; [|discriminate].
      injection Hf as <-. destruct j as [|j]; [exact E|].
      simpl. apply (IH k); [reflexivity | lia].
Qed.

Lemma find_index_none (s p : pystr) (j : nat) :
  find_index s p = None -> startswith (skipn j s) p = false.
Proof.
  revert j; induction s as [|c s IH]; intros j Hf.
  - destruct (startswith [] p) eqn:E.
    + rewrite (find_index_here _ _ E) in Hf; discriminate.
    + destruct j; exact E.
  - destruct (startswith (c :: s) p) eqn:E.
    + rewrite (find_index_here _ _ E) in Hf; discriminate.
    + rewrite (find_index_cons _ _ _ E) in Hf.
      destruct (find_index s p) eqn:F; simpl in Hf; [discriminate|].
      destruct j as [|j]; [exact E | apply IH; reflexivity].
Qed.

Lemma contains_find (s p : pystr) :
  contains s p = true -> exists i, find_index s p = Some i /\ find s p = Z.of_nat i.
Proof.
  unfold contains, find. destruct (find_index s p) as [i|]; [|discriminate].
  intros _; exists i; auto.
Qed.

Lemma contains_false_find (s p : pystr) :
  contains s p = false <-> find_index s p = None.
Proof.
  unfold contains. destruct (find_index s p); split; congruence.
Qed.

Lemma contains_nil (p : pystr) : p <> [] -> contains [] p = false.
Proof. destruct p; [congruence | reflexivity]. Qed.

Lemma adjust_index_id (n i : Z) : 0 <= i <= n -> adjust_index n i = i.
Proof.
  intros H. unfold adjust_index. cbv zeta.
  do 2 (destruct (Z.ltb_spec i 0); [lia|]).
  destruct (Z.ltb_spec n i); lia.
Qed.

Lemma slice_from_skipn (s : pystr) (i : nat) :
  (i <= List.length s)%nat -> slice_from s (Z.of_nat i) = skipn i s.
Proof.
  intros H. unfold slice_from, len.
  rewrite adjust_index_id by lia. rewrite Nat2Z.id. reflexivity.
Qed.

Lemma slice_between (s : pystr) (a b : nat) :
  (a <= b <= List.length s)%nat ->
  slice s (Z.of_nat a) (Z.of_nat b) = firstn (b - a) (skipn a s).
Proof.
  intros H. unfold slice, len.
  rewrite !adjust_index_id by lia. rewrite Nat2Z.id.
  f_equal. lia.
Qed.

Lemma slice_crossed (s : pystr) (a b : nat) :
  (b <= a)%nat -> (b <= List.length s)%nat ->
  slice s (Z.of_nat a) (Z.of_nat b) = [].
Proof.
  intros H Hb. unfold slice, len.
  rewrite (adjust_index_id _ (Z.of_nat b)) by lia.
  assert (Z.of_nat b <= adjust_index (Z.of_nat (List.length s)) (Z.of_nat a)).
  { unfold adjust_index. cbv zeta.
    do 2 (destruct (Z.ltb_spec (Z.of_nat a) 0); [lia|]).
    destruct (Z.ltb_spec (Z.of_nat (List.length s)) (Z.of_nat a)); lia. }
  replace (Z.to_nat _) with 0%nat at 1 by lia. reflexivity.
Qed.

End StringFacts.

(** * The chunker *)

Section Chunker.

Variables phrase1 phrase2 : pystr.

(** What one turn of the loop does, in terms of the two first occurrences. *)
Lemma cut_step_some (st st' : cut_state) :
  cut_step phrase1 phrase2 st = Some st' ->
  exists i1 i2 : nat,
    find_index (text st) phrase1 = Some i1 /\
    find_index (text st) phrase2 = Some i2 /\
    text st' = skipn (i2 + List.length phrase2) (text st) /\
    cutResults st' =
      cutResults st
      ++ [slice (text st) (Z.of_nat (i1 + List.length phrase1)) (Z.of_nat i2)].
Proof.
  unfold cut_step.
  destruct (contains (text st) phrase1) eqn:C1; [|discriminate].
  destruct (contains (text st) phrase2) eqn:C2; [|discriminate].
  apply contains_find in C1 as (i1 & F1 & E1).
  apply contains_find in C2 as (i2 & F2 & E2).
  simpl. intros [= <-]. exists i1, i2. simpl.
  rewrite E1, E2. unfold len. rewrite <- !Nat2Z.inj_add.
  repeat split; auto.
  apply slice_from_skipn. apply find_index_bound; assumption.
Qed.

Lemma cut_step_none (st : cut_state) :
  cut_step phrase1 phrase2 st = None <->
  contains (text st) phrase1 = false \/ contains (text st) phrase2 = false.
Proof.
  unfold cut_step.
  destruct (contains (text st) phrase1), (contains (text st) phrase2); simpl;
    split; try discriminate; auto; intros [H|H]; discriminate.
Qed.

Lemma cut_step_shrinks (st st' : cut_state) :
  phrase2 <> [] ->
  cut_step phrase1 phrase2 st = Some st' ->
  exists skipped,
    text st = skipped ++ phrase2 ++ text st' /\
    (List.length (text st') < List.length (text st))%nat.
Proof.
  intros Hne H. apply cut_step_some in H as (i1 & i2 & _ & F2 & Ht & _).
  exists (firstn i2 (text st)). rewrite Ht. split.
  - apply find_index_split; assumption.
  - apply find_index_bound in F2. rewrite length_skipn.
    destruct phrase2; [congruence | simpl in *; lia].
Qed.

Lemma firstn_split_at (s : pystr) (a b : nat) :
  (a <= b)%nat -> firstn b s = firstn a s ++ firstn (b - a) (skipn a s).
Proof.
  revert a b; induction s as [|c s IH]; intros a b H.
  - rewrite skipn_nil, !firstn_nil. reflexivity.
  - destruct a as [|a]; [rewrite Nat.sub_0_r; reflexivity|].
    destruct b as [|b]; [lia|]. simpl. f_equal. apply IH. lia.
Qed.

(** When the start marker found ends before the end marker found, the
    chunk cut is the text between the two, and the scan goes on right
    after the end marker. *)
Lemma cut_step_between (st st' : cut_state) (i1 i2 : nat) :
  cut_step phrase1 phrase2 st = Some st' ->
  find_index (text st) phrase1 = Some i1 ->
  find_index (text st) phrase2 = Some i2 ->
  (i1 + List.length phrase1 <= i2)%nat ->
  exists chunk,
    cutResults st' = cutResults st ++ [chunk] /\
    text st = firstn i1 (text st) ++ phrase1 ++ chunk ++ phrase2 ++ text st'.
Proof.
  intros H F1 F2 Hle.
  apply cut_step_some in H as (j1 & j2 & G1 & G2 & Ht & Hc).
  rewrite F1 in G1. rewrite F2 in G2. injection G1 as <-. injection G2 as <-.
  pose proof (find_index_bound _ _ _ F2) as Hb.
  rewrite slice_between in Hc by lia.
  eexists. split; [exact Hc|]. rewrite Ht.
  rewrite (find_index_split _ _ _ F2) at 1. rewrite !app_assoc. do 2 f_equal.
  rewrite (firstn_split_at (text st) (i1 + List.length phrase1) i2) by lia.
  f_equal. rewrite (find_index_split _ _ _ F1) at 1.
  pose proof (find_index_bound _ _ _ F1) as Hb1.
  rewrite app_assoc, firstn_app.
  rewrite firstn_all2 by (rewrite length_app, length_firstn; lia).
  rewrite length_app, length_firstn.
  replace (i1 + List.length phrase1
           - (Nat.min i1 (List.length (text st)) + List.length phrase1))%nat
    with 0%nat by lia.
  rewrite firstn_0, app_nil_r. reflexivity.
Qed.

Lemma cut_loop_stops (fuel : nat) (st : cut_state) :
  cut_step phrase1 phrase2 st = None ->
  cut_loop fuel phrase1 phrase2 st = Some (cutResults st).
Proof. intros H; destruct fuel; simpl; rewrite H; reflexivity. Qed.

(** With a non-empty end phrase the loop ends within as many turns as the
    text has characters, and more fuel changes nothing. *)
Lemma cut_loop_total (fuel : nat) :
  phrase2 <> [] ->
  forall st : cut_state,
    (List.length (text st) <= fuel)%nat ->
    exists chunks,
      forall fuel', (fuel <= fuel')%nat ->
        cut_loop fuel' phrase1 phrase2 st = Some chunks.
Proof.
  intros Hne. induction fuel as [|fuel IH]; intros st Hlen.
  - exists (cutResults st). intros fuel' _. apply cut_loop_stops.
    apply cut_step_none. right. destruct (text st); [|simpl in Hlen; lia].
    apply contains_nil; assumption.
  - destruct (cut_step phrase1 phrase2 st) as [st'|] eqn:E.
    + destruct (cut_step_shrinks _ _ Hne E) as (_ & _ & Hlt).
      destruct (IH st') as [chunks Hc]; [lia|].
      exists chunks. intros [|fuel'] Hf; [lia|].
      simpl. rewrite E. apply Hc; lia.
    + exists (cutResults st). intros fuel' _. apply cut_loop_stops; assumption.
Qed.

End Chunker.

(** C9. Chunking between the group markers terminates on every text: the
    fuel the text's length gives is enough, and more fuel gives the same
    chunks; every turn of the loop leaves a strictly shorter text, the one
    after the end marker found; and when either marker is absent from the
    remaining text the loop stops at once and answers the chunks cut so far,
    none added. *)
Theorem chunking_terminates (text0 : pystr) :
  (exists chunks,
     cutByPhrases text0 (py "<g") (py "</g>") = Some chunks /\
     forall fuel, (List.length text0 <= fuel)%nat ->
       cut_loop fuel (py "<g") (py "</g>") {| text := text0; cutResults := [] |}
       = Some chunks) /\
  (forall st st',
     cut_step (py "<g") (py "</g>") st = Some st' ->
     (exists skipped, text st = skipped ++ py "</g>" ++ text st') /\
     (List.length (text st') < List.length (text st))%nat) /\
  (forall st fuel,
     contains (text st) (py "<g") = false \/
     contains (text st) (py "</g>") = false ->
     cut_step (py "<g") (py "</g>") st = None /\
     cut_loop fuel (py "<g") (py "</g>") st = Some (cutResults st)).
Proof.
  assert (Hne : py "</g>" <> []) by discriminate.
  split; [|split].
  - destruct (cut_loop_total (py "<g") (py "</g>") (List.length text0) Hne
                {| text := text0; cutResults := [] |}) as [chunks Hc];
      [simpl; lia|].
    exists chunks. split; [apply Hc; lia | exact Hc].
  - intros st st' H.
    destruct (cut_step_shrinks _ _ st st' Hne H) as (sk & Hs & Hl).
    split; [exists sk; exact Hs | exact Hl].
  - intros st fuel H. apply cut_step_none in H.
    split; [exact H | apply cut_loop_stops; exact H].
Qed.

(** * The tactic key *)

Section Replace.

Variables old new : pystr.

Lemma replace_scan_skip (k : nat) (s : pystr) :
  replace_scan s old new k = replace_scan (skipn k s) old new 0.
Proof.
  revert s; induction k as [|k IH]; intros s; [reflexivity|].
  destruct s as [|c s]; [reflexivity|]. simpl. apply IH.
Qed.

Lemma replace_scan_absent (s : pystr) :
  find_index s old = None -> replace_scan s old new 0 = s.
Proof.
  induction s as [|c s IH]; intros Hf; [reflexivity|].
  destruct (startswith (c :: s) old) eqn:E.
  - rewrite (find_index_here _ _ E) in Hf; discriminate.
  - rewrite (find_index_cons _ _ _ E) in Hf.
    destruct (find_index s old) eqn:F; simpl in Hf; [discriminate|].
    cbn [replace_scan]. rewrite E. f_equal. apply IH; reflexivity.
Qed.

(** The first occurrence is replaced and the scan goes on after it. *)
Lemma replace_scan_first (s : pystr) (i : nat) :
  old <> [] ->
  find_index s old = Some i ->
  replace_scan s old new 0
  = firstn i s ++ new ++ replace_scan (skipn (i + List.length old) s) old new 0.
Proof.
  intros Hne. revert i; induction s as [|c s IH]; intros i Hf.
  - apply find_index_nil in Hf as [_ ->]; congruence.
  - destruct (startswith (c :: s) old) eqn:E.
    + rewrite (find_index_here _ _ E) in Hf. injection Hf as <-.
      cbn [replace_scan]. rewrite E, replace_scan_skip.
      destruct old as [|o old']; [congruence|].
      cbn [firstn app List.length Nat.add Nat.sub skipn].
      rewrite Nat.sub_0_r. reflexivity.
    + rewrite (find_index_cons _ _ _ E) in Hf.
      destruct (find_index s old) as [j|] eqn:F; simpl in Hf; [|discriminate].
      injection Hf as <-. cbn [replace_scan]. rewrite E.
      rewrite (IH j eq_refl). reflexivity.
Qed.

End Replace.

(** C8, as stated, fails: a label that holds the text elsewhere than at its
    end loses it too, where a suffix removal leaves the label alone. *)
Lemma tacticKey_not_suffix_only :
  tacticKey (py "Anti Micro-objective Analysis") = py "Anti Analysis" /\
  removesuffix (py "Anti Micro-objective Analysis") (py " Micro-objective")
  = py "Anti Micro-objective Analysis" /\
  tacticKey (py "Anti Micro-objective Analysis")
  <> removesuffix (py "Anti Micro-objective Analysis") (py " Micro-objective").
Proof. vm_compute. repeat split; discriminate. Qed.

(** C8, amended. The tactic key is the label with every occurrence of
    " Micro-objective" taken out, wherever it stands: a label without the
    text is unchanged, and otherwise the first occurrence is removed and
    what follows it is treated the same way. A label that ends with the
    text and holds it nowhere before loses exactly that suffix, and
    "Defense Evasion Micro-objective" gives "Defense Evasion". *)
Theorem tacticKey_removes_every_occurrence (label : pystr) :
  tacticKey label =
    match find_index label (py " Micro-objective") with
    | None => label
    | Some i =>
        firstn i label
        ++ tacticKey (skipn (i + List.length (py " Micro-objective")) label)
    end /\
  (forall base,
     find_index (base ++ py " Micro-objective") (py " Micro-objective")
     = Some (List.length base) ->
     tacticKey (base ++ py " Micro-objective") = base) /\
  tacticKey (py "Defense Evasion Micro-objective") = py "Defense Evasion".
Proof.
  assert (Hne : py " Micro-objective" <> []) by discriminate.
  assert (Hmain : forall l, tacticKey l =
    match find_index l (py " Micro-objective") with
    | None => l
    | Some i => firstn i l
        ++ tacticKey (skipn (i + List.length (py " Micro-objective")) l)
    end).
  { intros l. unfold tacticKey.
    change (replace ?s (py " Micro-objective") [])
      with (replace_scan s (py " Micro-objective") [] 0).
    destruct (find_index l (py " Micro-objective")) as [i|] eqn:F.
    - rewrite (replace_scan_first _ [] l i Hne F). reflexivity.
    - apply replace_scan_absent; assumption. }
  split; [apply Hmain | split].
  - intros base Hf. rewrite Hmain, Hf.
    rewrite firstn_app, firstn_all, Nat.sub_diag.
    rewrite skipn_all2 by (rewrite length_app; lia).
    change (tacticKey []) with (@nil ascii). simpl firstn.
    rewrite !app_nil_r. reflexivity.
  - vm_compute. reflexivity.
Qed.

(** * Dictionaries *)

Section DictFacts.

Context {V : Type}.

Lemma dict_get_app (a b : dict V) (k : pystr) :
  dict_get (a ++ b) k =
    match dict_get a k with
    | Some v => Some v
    | None => dict_get b k
    end.
Proof.
  induction a as [|[k' v'] a IH]; simpl; [reflexivity|].
  destruct (pystr_eqb k' k); auto.
Qed.

Lemma dict_get_absent (d : dict V) (k : pystr) :
  ~ In k (keys d) -> dict_get d k = None.
Proof.
  induction d as [|[k' v'] d IH]; simpl; intros H; [reflexivity|].
  destruct (pystr_eqb k' k) eqn:E.
  - apply pystr_eqb_eq in E. tauto.
  - apply IH; tauto.
Qed.

Lemma dict_get_present (d : dict V) (k : pystr) :
  In k (keys d) -> exists v, dict_get d k = Some v.
Proof.
  induction d as [|[k' v'] d IH]; simpl; intros H; [tauto|].
  destruct (pystr_eqb k' k) eqn:E; [eauto|].
  apply pystr_eqb_neq in E. destruct H; [congruence | auto].
Qed.

Lemma dict_get_in (d : dict V) (k : pystr) (v : V) :
  dict_get d k = Some v -> In (k, v) d.
Proof.
  induction d as [|[k' v'] d IH]; simpl; [discriminate|].
  destruct (pystr_eqb k' k) eqn:E.
  - apply pystr_eqb_eq in E. intros [= ->]. left; congruence.
  - auto.
Qed.

(** Reading and writing the entry that follows a prefix without the key. *)
Lemma dict_get_middle (a b : dict V) (k : pystr) (v : V) :
  ~ In k (keys a) -> dict_get (a ++ (k, v) :: b) k = Some v.
Proof.
  intros H. rewrite dict_get_app, (dict_get_absent a k H).
  simpl. rewrite pystr_eqb_refl. reflexivity.
Qed.

Lemma dict_set_middle (a b : dict V) (k : pystr) (v w : V) :
  ~ In k (keys a) -> dict_set (a ++ (k, v) :: b) k w = a ++ (k, w) :: b.
Proof.
  induction a as [|[k' v'] a IH]; simpl; intros H.
  - rewrite pystr_eqb_refl. reflexivity.
  - destruct (pystr_eqb k' k) eqn:E.
    + apply pystr_eqb_eq in E. tauto.
    + rewrite IH by tauto. reflexivity.
Qed.

Lemma dict_set_keys_in (d : dict V) (k : pystr) (v : V) :
  In k (keys (dict_set d k v)).
Proof.
  induction d as [|[k' v'] d IH]; simpl; [auto|].
  destruct (pystr_eqb k' k) eqn:E; simpl.
  - apply pystr_eqb_eq in E. auto.
  - right. exact IH.
Qed.

Lemma dict_set_keys_mono (d : dict V) (k k0 : pystr) (v : V) :
  In k0 (keys d) -> In k0 (keys (dict_set d k v)).
Proof.
  induction d as [|[k' v'] d IH]; simpl; [tauto|].
  destruct (pystr_eqb k' k); simpl; tauto.
Qed.

Lemma dict_get_set_same (d : dict V) (k : pystr) (v : V) :
  dict_get (dict_set d k v) k = Some v.
Proof.
  induction d as [|[k' v'] d IH]; simpl.
  - rewrite pystr_eqb_refl. reflexivity.
  - destruct (pystr_eqb k' k) eqn:E; simpl; rewrite E; auto.
Qed.

Lemma dict_set_wf (d : dict V) (k : pystr) (v : V) :
  dict_wf d -> dict_wf (dict_set d k v).
Proof.
  unfold dict_wf. induction d as [|[k' v'] d IH]; simpl; intros H.
  - constructor; [simpl; tauto | constructor].
  - inversion H as [|? ? Hn Hd]; subst.
    destruct (pystr_eqb k' k) eqn:E; simpl; [assumption|].
    constructor; [|auto].
    intros Hin. apply Hn. clear - Hin E.
    induction d as [|[k2 v2] d IHd]; simpl in *.
    + destruct Hin as [<-|[]]. rewrite pystr_eqb_refl in E. discriminate.
    + destruct (pystr_eqb k2 k); simpl in *; tauto.
Qed.

End DictFacts.

Lemma bind_ok {A : Type} (r : result A) : (x <- r ;; Ok x) = r.
Proof. destruct r; reflexivity. Qed.

Lemma bind_assoc {A B C : Type} (r : result A)
      (f : A -> result B) (g : B -> result C) :
  (y <- (x <- r ;; f x) ;; g y) = (x <- r ;; y <- f x ;; g y).
Proof. destruct r; reflexivity. Qed.

Lemma keys_app {V : Type} (a b : dict V) : keys (a ++ b) = keys a ++ keys b.
Proof. apply map_app. Qed.

(** * The normalizer *)

Section Normalizer.

Lemma startswith_char (x c : ascii) (s : pystr) :
  startswith (x :: s) [c] = Ascii.eqb c x.
Proof. simpl. destruct s; apply andb_true_r. Qed.

Lemma contains_char (s : pystr) (c : ascii) :
  contains s [c] = true <-> In c s.
Proof.
  unfold contains. induction s as [|x s IH].
  - simpl. split; [discriminate | tauto].
  - destruct (Ascii.eqb c x) eqn:E.
    + rewrite find_index_here by (rewrite startswith_char; exact E).
      apply Ascii.eqb_eq in E. simpl. split; auto.
    + rewrite find_index_cons by (rewrite startswith_char; exact E).
      apply Ascii.eqb_neq in E.
      destruct (find_index s [c]); simpl in *; split; intros H.
      * right; apply IH; reflexivity.
      * reflexivity.
      * discriminate.
      * destruct H as [H|H]; [congruence | apply IH in H; discriminate].
Qed.

Lemma split_cons (s : pystr) (sep : ascii) :
  exists w ws, split s sep = w :: ws.
Proof.
  induction s as [|c s (w & ws & IH)]; simpl; [eauto|].
  destruct (Ascii.eqb c sep); [eauto|]. rewrite IH; eauto.
Qed.

Lemma item_0_split (s : pystr) (sep : ascii) :
  item (split s sep) 0 = Ok (hd [] (split s sep)).
Proof. destruct (split_cons s sep) as (w & ws & ->); reflexivity. Qed.

(** The piece before the first separator holds no separator. *)
Lemma split_hd_no_sep (s : pystr) (sep : ascii) :
  ~ In sep (hd [] (split s sep)).
Proof.
  induction s as [|c s IH]; simpl; [tauto|].
  destruct (Ascii.eqb c sep) eqn:E; simpl; [tauto|].
  apply Ascii.eqb_neq in E.
  destruct (split_cons s sep) as (w & ws & Hs). rewrite Hs in *. simpl in *.
  intros [H|H]; [congruence | tauto].
Qed.

Lemma parent_id_undotted (key : pystr) :
  contains (parent_id key) (py ".") = false.
Proof.
  destruct (contains (parent_id key) (py ".")) eqn:E; [|reflexivity].
  apply (contains_char _ "."%char) in E.
  exfalso. exact (split_hd_no_sep key "."%char E).
Qed.

(** The inner loop, started on a group whose first entries ([done']) are
    already rewritten: on the live group it computes what the reference
    computes from the snapshot [snap]. *)
Lemma for_keys_snapshot (snap : TacticGroup) (todo done done' : TacticGroup) :
  snap = done ++ todo ->
  NoDup (keys snap) ->
  keys done' = keys done ->
  (forall pk, contains pk (py ".") = false ->
              dict_get done' pk = dict_get done pk) ->
  for_keys (keys todo) (done' ++ todo)
  = (todo' <- map_result (normalize_entry snap) todo ;; Ok (done' ++ todo')).
Proof.
  revert done done'.
  induction todo as [|[k v] rest IH]; intros done done' Hs Hnd Hk Hget.
  - simpl. reflexivity.
  - assert (Hfresh : ~ In k (keys done')).
    { rewrite Hk. subst snap. rewrite keys_app in Hnd. simpl in Hnd.
      apply NoDup_remove_2 in Hnd. rewrite in_app_iff in Hnd. tauto. }
    assert (Hs' : snap = (done ++ [(k, v)]) ++ rest)
      by (rewrite <- app_assoc; exact Hs).
    change (keys ((k, v) :: rest)) with (k :: keys rest).
    cbn [for_keys map_result]. unfold rewrite_key.
    cbn [normalize_entry].
    destruct (contains k (py ".")) eqn:Hdot.
    + rewrite item_0_split. cbn [bind]. fold (parent_id k).
      assert (Hp : subscript (done' ++ (k, v) :: rest) (parent_id k)
                   = subscript snap (parent_id k)).
      { unfold subscript. subst snap. rewrite !dict_get_app.
        rewrite (Hget _ (parent_id_undotted k)). reflexivity. }
      rewrite Hp. destruct (subscript snap (parent_id k)) as [pv|e];
        [|reflexivity].
      cbn [bind]. unfold subscript at 1.
      rewrite (dict_get_middle _ _ _ _ Hfresh). cbn [bind].
      rewrite (dict_set_middle _ _ _ _ _ Hfresh).
      change (done' ++ (k, pv ++ py "::" ++ v) :: rest)
        with (done' ++ [(k, pv ++ py "::" ++ v)] ++ rest).
      rewrite app_assoc. etransitivity.
      { apply (IH (done ++ [(k, v)])); [exact Hs' | exact Hnd | |].
        - rewrite !keys_app, Hk. reflexivity.
        - intros pk Hpk. rewrite !dict_get_app, (Hget pk Hpk).
          destruct (dict_get done pk); [reflexivity|]. simpl.
          destruct (pystr_eqb k pk) eqn:E; [|reflexivity].
          apply pystr_eqb_eq in E. congruence. }
      destruct (map_result (normalize_entry snap) rest); cbn [bind];
        [rewrite <- app_assoc|]; reflexivity.
    + cbn [bind].
      change (done' ++ (k, v) :: rest) with (done' ++ [(k, v)] ++ rest).
      rewrite app_assoc. etransitivity.
      { apply (IH (done ++ [(k, v)])); [exact Hs' | exact Hnd | |].
        - rewrite !keys_app, Hk. reflexivity.
        - intros pk Hpk. rewrite !dict_get_app, (Hget pk Hpk). reflexivity. }
      destruct (map_result (normalize_entry snap) rest); cbn [bind];
        [rewrite <- app_assoc|]; reflexivity.
Qed.

Lemma process_group_snapshot (group : TacticGroup) :
  dict_wf group -> process_group group = normalize_group_snapshot group.
Proof.
  intros Hwf. unfold process_group, normalize_group_snapshot.
  change group with ([] ++ group) at 2.
  rewrite (for_keys_snapshot group group [] []); auto.
  apply bind_ok.
Qed.

Lemma for_tactics_snapshot (todo done' : TaxonomyTree) :
  NoDup (keys (done' ++ todo)) ->
  (forall tactic group, In (tactic, group) todo -> dict_wf group) ->
  for_tactics (keys todo) (done' ++ todo)
  = (todo' <- normalize_snapshot todo ;; Ok (done' ++ todo')).
Proof.
  revert done'.
  induction todo as [|[t g] rest IH]; intros done' Hnd Hwf.
  - simpl. reflexivity.
  - assert (Hfresh : ~ In t (keys done')).
    { rewrite keys_app in Hnd. simpl in Hnd.
      apply NoDup_remove_2 in Hnd. rewrite in_app_iff in Hnd. tauto. }
    change (keys ((t, g) :: rest)) with (t :: keys rest).
    cbn [for_tactics]. unfold normalize_snapshot.
    cbn [map_result fst snd]. unfold subscript.
    rewrite (dict_get_middle _ _ _ _ Hfresh). cbn [bind].
    rewrite (process_group_snapshot g) by (apply (Hwf t); left; reflexivity).
    destruct (normalize_group_snapshot g) as [g'|e]; [|reflexivity].
    cbn [bind]. rewrite (dict_set_middle _ _ _ _ _ Hfresh).
    change (done' ++ (t, g') :: rest) with (done' ++ [(t, g')] ++ rest).
    rewrite app_assoc. etransitivity.
    { apply IH.
      - rewrite <- app_assoc. simpl.
        rewrite keys_app in *. simpl in *. exact Hnd.
      - intros t' g'' Hin. apply (Hwf t'). right; exact Hin. }
    fold (normalize_snapshot rest).
    destruct (normalize_snapshot rest); cbn [bind];
      [rewrite <- app_assoc|]; reflexivity.
Qed.

(** On a tree of dictionaries the in-place normalizer is the snapshot
    reference. *)
Lemma postProcessing_snapshot (tree : TaxonomyTree) :
  dict_wf tree ->
  (forall tactic group, In (tactic, group) tree -> dict_wf group) ->
  postProcessing tree = normalize_snapshot tree.
Proof.
  intros Hwf Hg. unfold postProcessing.
  change tree with ([] ++ tree) at 2.
  rewrite for_tactics_snapshot; auto. apply bind_ok.
Qed.

End Normalizer.

Lemma sample_tree_wf :
  dict_wf sample_tree /\
  forall tactic group, In (tactic, group) sample_tree -> dict_wf group.
Proof.
  split; [nodup_keys|].
  intros t g [H|[H|[]]]; injection H as <- <-; nodup_keys.
Qed.

Lemma orphan_tree_wf :
  dict_wf orphan_tree /\
  forall tactic group, In (tactic, group) orphan_tree -> dict_wf group.
Proof.
  split; [nodup_keys|].
  intros t g [H|[]]; injection H as <- <-; nodup_keys.
Qed.

(** C5. On every tree (of dictionaries, so with each key once) the in-place
    normalizer [postProcessing] computes exactly what the snapshot reference
    computes: each entry is rewritten once, a dotted id's name becoming the
    parent's original name, "::" and its own name, with no cascade through
    rewritten values; a missing parent raises the same [KeyError] in both.
    For "T001" -> "Alpha" and "T001.002" -> "Beta" the outcome is
    "T001.002" -> "Alpha::Beta". *)
Theorem normalizer_reads_original_parents (tree : TaxonomyTree) :
  dict_wf tree ->
  (forall tactic group, In (tactic, group) tree -> dict_wf group) ->
  postProcessing tree = normalize_snapshot tree /\
  postProcessing
    [(py "Collection", [(py "T001", py "Alpha"); (py "T001.002", py "Beta")])]
  = Ok [(py "Collection",
         [(py "T001", py "Alpha"); (py "T001.002", py "Alpha::Beta")])].
Proof.
  intros Hwf Hg. split.
  - apply postProcessing_snapshot; assumption.
  - vm_compute. reflexivity.
Qed.

Lemma normalizer_reads_original_parents_witness :
  (postProcessing sample_tree = normalize_snapshot sample_tree /\
   postProcessing
     [(py "Collection", [(py "T001", py "Alpha"); (py "T001.002", py "Beta")])]
   = Ok [(py "Collection",
          [(py "T001", py "Alpha"); (py "T001.002", py "Alpha::Beta")])]) /\
  postProcessing sample_tree
  = Ok [(py "Collection",
         [(py "T001", py "Alpha"); (py "T001.002", py "Alpha::Beta");
          (py "T001.002.003", py "Alpha::Gamma")]);
        (py "Defense Evasion", [(py "B0002", py "Delta")])].
Proof.
  split.
  - apply (normalizer_reads_original_parents sample_tree);
      apply sample_tree_wf.
  - vm_compute. reflexivity.
Defined.

Section MissingParent.

Lemma map_result_raise {A B : Type} (f : A -> result B) (l : list A) :
  (exists a e, In a l /\ f a = Raise e) ->
  exists a e, In a l /\ f a = Raise e /\ map_result f l = Raise e.
Proof.
  induction l as [|a0 l IH]; intros (a & e & Hin & Hf); [destruct Hin|].
  destruct (f a0) as [b|e0] eqn:E0.
  - destruct Hin as [<-|Hin]; [congruence|].
    destruct IH as (a' & e' & Hin' & Hf' & Hm); [eauto|].
    exists a', e'. simpl. rewrite E0, Hm. repeat split; auto.
  - exists a0, e0. simpl. rewrite E0. repeat split; auto.
Qed.

Lemma map_result_raise_inv {A B : Type} (f : A -> result B) (l : list A)
      (e : exn) :
  map_result f l = Raise e -> exists a, In a l /\ f a = Raise e.
Proof.
  induction l as [|a l IH]; simpl; [discriminate|].
  destruct (f a) as [b|e0] eqn:Ea; simpl.
  - destruct (map_result f l); simpl; [discriminate|].
    intros [= ->]. destruct IH as (a' & Ha' & Hn); [reflexivity|].
    exists a'; auto.
  - intros [= ->]. exists a; auto.
Qed.

Lemma normalize_entry_raise (snap : TacticGroup) (k v : pystr) (e : exn) :
  normalize_entry snap (k, v) = Raise e ->
  contains k (py ".") = true /\
  dict_get snap (parent_id k) = None /\
  e = KeyError (parent_id k).
Proof.
  unfold normalize_entry, subscript.
  destruct (contains k (py ".")); [|discriminate].
  destruct (dict_get snap (parent_id k)); simpl; [discriminate|].
  intros [= <-]. auto.
Qed.

Lemma normalize_entry_orphan (snap : TacticGroup) (k v : pystr) :
  contains k (py ".") = true ->
  dict_get snap (parent_id k) = None ->
  normalize_entry snap (k, v) = Raise (KeyError (parent_id k)).
Proof.
  intros Hd Hp. unfold normalize_entry, subscript. rewrite Hd, Hp. reflexivity.
Qed.

End MissingParent.

(** C7, as stated, fails: a dotted id without its parent ends the run with
    Python's own [KeyError] for the parent id, raised by the subscript
    itself, and with no error class named MissingParent. *)
Lemma missing_parent_raises_KeyError :
  postProcessing orphan_tree = Raise (KeyError (py "T001")) /\
  postProcessing orphan_tree <> Raise (UserError "MissingParent").
Proof. vm_compute. split; [reflexivity | discriminate]. Qed.

(** C7, amended. When some dotted id of a tree has no entry for its parent
    id (the part of the id before the first '.') in its own group,
    normalization fails: it raises the [KeyError] of the group subscript,
    carrying the parent id of a dotted id whose parent is absent. *)
Theorem missing_parent_fails (tree : TaxonomyTree)
        (tactic : pystr) (group : TacticGroup) (key : pystr) :
  dict_wf tree ->
  (forall t g, In (t, g) tree -> dict_wf g) ->
  In (tactic, group) tree ->
  In key (keys group) ->
  contains key (py ".") = true ->
  dict_get group (parent_id key) = None ->
  exists tactic' group' key',
    In (tactic', group') tree /\
    In key' (keys group') /\
    contains key' (py ".") = true /\
    dict_get group' (parent_id key') = None /\
    postProcessing tree = Raise (KeyError (parent_id key')).
Proof.
  intros Hwf Hg Hin Hkey Hdot Hpar.
  rewrite (postProcessing_snapshot tree Hwf Hg).
  apply in_map_iff in Hkey as ([k v] & Hk & Hkv). simpl in Hk. subst k.
  pose (F := fun tg : pystr * TacticGroup =>
               group' <- normalize_group_snapshot (snd tg) ;;
               Ok (fst tg, group')).
  destruct (map_result_raise (normalize_entry group) group)
    as ([k1 v1] & e1 & Hin1 & Hf1 & Hm1).
  { exists (key, v), (KeyError (parent_id key)). split; [assumption|].
    apply normalize_entry_orphan; assumption. }
  destruct (map_result_raise F tree) as ([t2 g2] & e2 & Hin2 & Hf2 & Hm2).
  { exists (tactic, group), e1. split; [assumption|].
    unfold F, normalize_group_snapshot. simpl. rewrite Hm1. reflexivity. }
  unfold F in Hf2. simpl in Hf2.
  destruct (normalize_group_snapshot g2) as [g2'|e2'] eqn:E2;
    simpl in Hf2; [discriminate|]. injection Hf2 as ->.
  unfold normalize_group_snapshot in E2.
  destruct (map_result (normalize_entry g2) g2) as [x|e3] eqn:E3;
    [discriminate|]. injection E2 as ->.
  assert (Hex : exists a, In a g2 /\ normalize_entry g2 a = Raise e2).
  { apply map_result_raise_inv. exact E3. }
  destruct Hex as ([k3 v3] & Hin3 & Hn3).
  apply normalize_entry_raise in Hn3 as (Hd3 & Hp3 & ->).
  exists t2, g2, k3. repeat split; auto.
  apply in_map_iff. exists (k3, v3); auto.
Qed.

Lemma missing_parent_fails_witness :
  exists tactic' group' key',
    In (tactic', group') orphan_tree /\
    In key' (keys group') /\
    contains key' (py ".") = true /\
    dict_get group' (parent_id key') = None /\
    postProcessing orphan_tree = Raise (KeyError (parent_id key')).
Proof.
  apply (missing_parent_fails orphan_tree (py "Collection")
           [(py "T001.002", py "Beta")] (py "T001.002")).
  - apply orphan_tree_wf.
  - apply orphan_tree_wf.
  - left; reflexivity.
  - left; reflexivity.
  - reflexivity.
  - reflexivity.
Defined.

(** * The technique extractor *)

Section Extractor.

Lemma split_hd (s : pystr) (sep : ascii) :
  hd [] (split s sep) = before_first sep s.
Proof.
  induction s as [|c s IH]; simpl; [reflexivity|].
  destruct (Ascii.eqb c sep); [reflexivity|].
  destruct (split_cons s sep) as (w & ws & Hs). rewrite Hs in *.
  simpl in *. congruence.
Qed.

Lemma split_no_sep (s : pystr) (sep : ascii) :
  ~ In sep s -> split s sep = [s].
Proof.
  induction s as [|c s IH]; simpl; intros H; [reflexivity|].
  destruct (Ascii.eqb c sep) eqn:E.
  - apply Ascii.eqb_eq in E. tauto.
  - rewrite IH by tauto. reflexivity.
Qed.

Lemma split_at_first (s : pystr) (sep : ascii) :
  In sep s ->
  split s sep = before_first sep s :: split (after_first sep s) sep.
Proof.
  induction s as [|c s IH]; simpl; intros H; [tauto|].
  destruct (Ascii.eqb c sep) eqn:E; [reflexivity|].
  apply Ascii.eqb_neq in E. destruct H as [H|H]; [congruence|].
  rewrite (IH H). reflexivity.
Qed.

Lemma filter_none {A : Type} (f : A -> bool) (l : list A) :
  (forall a, In a l -> f a = false) -> filter f l = [].
Proof.
  induction l as [|a l IH]; simpl; intros H; [reflexivity|].
  rewrite (H a) by auto. apply IH. auto.
Qed.

(** What [extractTechnique] answers for a label with a colon: the id is
    the stripped part before the first colon, the name the stripped part
    between the first colon and the second (or the end). *)
Lemma extractTechnique_fields (chunk label : pystr) :
  labelText chunk = Ok label ->
  contains label (py ":") = true ->
  extractTechnique chunk
  = Ok (strip (before_first ":" label),
        strip (before_first ":" (after_first ":" label))).
Proof.
  intros Hl Hc. apply (contains_char _ ":"%char) in Hc.
  unfold extractTechnique. rewrite Hl. cbn [bind].
  rewrite (split_at_first _ _ Hc). cbn [item nth_error bind].
  destruct (split_cons (after_first ":" label) ":") as (w & ws & Hs).
  pose proof (split_hd (after_first ":" label) ":") as Hh.
  rewrite Hs in *. simpl in Hh. subst w. reflexivity.
Qed.

End Extractor.

(** C3, as stated, fails: a chunk without a text-span line, and a chunk
    whose label has no colon, both end in Python's [IndexError], the
    out-of-range subscript itself, and in no error class named
    MalformedChunk. *)
Lemma malformed_chunk_raises_IndexError :
  extractTechnique (py " class='technique'>") = Raise IndexError /\
  extractTechnique (technique_chunk "B0001 Debugger Detection")
  = Raise IndexError /\
  extractTechnique (py " class='technique'>")
  <> Raise (UserError "MalformedChunk").
Proof. vm_compute. repeat split; discriminate. Qed.

(** C3, amended. For every chunk in which no line contains "<tspan", or
    whose rebuilt label text has no colon, [extractTechnique] fails, and
    the failure is the [IndexError] of the subscript that runs out of
    range. *)
Theorem malformed_chunk_fails (chunk : pystr) :
  (forall line, In line (split chunk NL) ->
                contains line (py "<tspan") = false) \/
  (exists label, labelText chunk = Ok label /\
                 contains label (py ":") = false) ->
  extractTechnique chunk = Raise IndexError.
Proof.
  intros [Hno|(label & Hl & Hc)].
  - unfold extractTechnique, labelText, extractByKeyword.
    rewrite (filter_none _ _ Hno). reflexivity.
  - unfold extractTechnique. rewrite Hl. cbn [bind].
    rewrite split_no_sep; [reflexivity|].
    intros Hin. apply (contains_char _ ":"%char) in Hin.
    unfold py in Hc. simpl in Hc. congruence.
Qed.

Lemma malformed_chunk_fails_witness :
  extractTechnique (py " class='technique'>") = Raise IndexError /\
  extractTechnique (technique_chunk "B0001 Debugger Detection")
  = Raise IndexError.
Proof.
  split.
  - apply (malformed_chunk_fails (py " class='technique'>")). left.
    intros line H. vm_compute in H. destruct H as [<-|[]]. reflexivity.
  - apply (malformed_chunk_fails (technique_chunk "B0001 Debugger Detection")).
    right. exists (py "B0001 Debugger Detection"). split; reflexivity.
Defined.

(** C4 against the code. The id is the stripped part before the first
    colon, but the name stops at the second colon: for the label
    "E1234: Name: with colon" the script answers the name "Name", where
    the whole remainder after the first colon is "Name: with colon". *)
Theorem name_stops_at_second_colon :
  labelText (technique_chunk "E1234: Name: with colon")
  = Ok (py "E1234: Name: with colon") /\
  extractTechnique (technique_chunk "E1234: Name: with colon")
  = Ok (py "E1234", py "Name") /\
  strip (before_first ":" (py "E1234: Name: with colon")) = py "E1234" /\
  strip (after_first ":" (py "E1234: Name: with colon"))
  = py "Name: with colon".
Proof. vm_compute. repeat split; reflexivity. Qed.

(** * The traversal loop *)

Section Traversal.

Lemma main_loop_app (a b : list pystr) (st : loop_state) :
  main_loop (a ++ b) st = (st' <- main_loop a st ;; main_loop b st').
Proof.
  revert st; induction a as [|c a IH]; intros st; simpl; [reflexivity|].
  destruct (loop_body st c); simpl; auto.
Qed.

Lemma loop_body_label (st : loop_state) (chunk tacticName : pystr) :
  is_tactic_label chunk = true ->
  extractTactic chunk = Some tacticName ->
  loop_body st chunk
  = Ok {| allResults :=
            dict_set (allResults st) (tacticKey tacticName) (tacticGroup st);
          tacticGroup := [] |}.
Proof.
  unfold is_tactic_label, loop_body. intros H He.
  apply andb_true_iff in H as [H1 H2]. apply negb_true_iff in H1.
  rewrite H1, H2, He. reflexivity.
Qed.

Lemma loop_body_keeps_tree (st st' : loop_state) (chunk : pystr) :
  is_tactic_label chunk = false ->
  loop_body st chunk = Ok st' ->
  allResults st' = allResults st.
Proof.
  unfold is_tactic_label, loop_body.
  destruct (contains chunk (py "technique")); simpl.
  - intros _. destruct (extractTechnique chunk) as [[i n]|e]; simpl;
      [|discriminate]. intros [= <-]. reflexivity.
  - intros ->. intros [= <-]. reflexivity.
Qed.

Lemma main_loop_keeps_tree (chunks : list pystr) (st st' : loop_state) :
  (forall c, In c chunks -> is_tactic_label c = false) ->
  main_loop chunks st = Ok st' ->
  allResults st' = allResults st.
Proof.
  revert st; induction chunks as [|c l IH]; intros st Hno; simpl.
  - intros [= <-]. reflexivity.
  - destruct (loop_body st c) as [st1|e] eqn:E; simpl; [|discriminate].
    intros H. rewrite (IH st1); [| intros; apply Hno; right; assumption | exact H].
    apply (loop_body_keeps_tree _ _ c); [apply Hno; left; reflexivity | exact E].
Qed.

(** A stretch without tactic labels only grows the accumulator, by the
    entries of its technique chunks. *)
Lemma main_loop_techniques (chunks : list pystr)
      (entries : list (pystr * pystr)) (res : TaxonomyTree) (g : TacticGroup) :
  (forall c, In c chunks -> is_tactic_label c = false) ->
  extracted chunks entries ->
  main_loop chunks {| allResults := res; tacticGroup := g |}
  = Ok {| allResults := res; tacticGroup := add_entries entries g |}.
Proof.
  unfold extracted.
  revert entries g; induction chunks as [|c l IH]; intros entries g Hno Hex.
  - simpl in Hex. inversion Hex; subst. reflexivity.
  - assert (Hc : is_tactic_label c = false) by (apply Hno; left; reflexivity).
    assert (Hl : forall c', In c' l -> is_tactic_label c' = false)
      by (intros; apply Hno; right; assumption).
    cbn [filter] in Hex. cbn [main_loop]. unfold loop_body.
    unfold is_tactic_label in Hc. unfold is_technique in Hex at 1.
    destruct (contains c (py "technique")) eqn:Ht.
    + inversion Hex as [|? [i n] ? es Hc1 Hrest]; subst.
      rewrite Hc1. cbn [bind allResults tacticGroup].
      apply (IH es); assumption.
    + cbn [negb andb] in Hc. rewrite Hc. cbn [bind]. apply IH; assumption.
Qed.

Lemma add_entries_keeps_keys (entries : list (pystr * pystr))
      (g : TacticGroup) (k : pystr) :
  In k (keys g) -> In k (keys (add_entries entries g)).
Proof.
  unfold add_entries.
  revert g; induction entries as [|e es IH]; intros g H; simpl; [exact H|].
  apply IH. apply dict_set_keys_mono. exact H.
Qed.

Lemma add_entries_has_keys (entries : list (pystr * pystr))
      (g : TacticGroup) (e : pystr * pystr) :
  In e entries -> In (fst e) (keys (add_entries entries g)).
Proof.
  revert g; induction entries as [|e0 es IH]; intros g H; [destruct H|].
  destruct H as [->|H].
  - change (add_entries (e :: es) g)
      with (add_entries es (dict_set g (fst e) (snd e))).
    apply add_entries_keeps_keys. apply dict_set_keys_in.
  - change (add_entries (e0 :: es) g)
      with (add_entries es (dict_set g (fst e0) (snd e0))).
    apply IH. exact H.
Qed.

(** A stretch without tactic labels whose technique chunks all extract
    runs through. *)
Lemma main_loop_no_label_runs (chunks : list pystr) (st : loop_state) :
  (forall c, In c chunks -> is_tactic_label c = false) ->
  (forall c, In c chunks -> is_technique c = true ->
             exists e, extractTechnique c = Ok e) ->
  exists st', main_loop chunks st = Ok st' /\ allResults st' = allResults st.
Proof.
  revert st; induction chunks as [|c l IH]; intros st Hno Hex.
  - exists st. split; reflexivity.
  - assert (Hc : is_tactic_label c = false) by (apply Hno; left; reflexivity).
    assert (exists st1, loop_body st c = Ok st1) as [st1 H1].
    { unfold loop_body. unfold is_tactic_label in Hc.
      destruct (contains c (py "technique")) eqn:Ht.
      - destruct (Hex c) as [[i n] He]; [left; reflexivity | exact Ht |].
        rewrite He. simpl. eauto.
      - cbn [negb andb] in Hc. rewrite Hc. eauto. }
    destruct (IH st1) as (st' & Hm & Ha).
    + intros; apply Hno; right; assumption.
    + intros c' Hin; apply Hex; right; assumption.
    + exists st'. simpl. rewrite H1. simpl. split; [exact Hm|].
      rewrite Ha. apply (loop_body_keeps_tree _ _ c); assumption.
Qed.

End Traversal.


Lemma two_techniques_extracted :
  (forall c, In c [technique_chunk "T1:Alpha"; technique_chunk "T2:Beta"] ->
             is_tactic_label c = false) /\
  extracted [technique_chunk "T1:Alpha"; technique_chunk "T2:Beta"]
            [(py "T1", py "Alpha"); (py "T2", py "Beta")].
Proof.
  split.
  - intros c [<-|[<-|[]]]; reflexivity.
  - repeat constructor.
Qed.


(** ** What the loop hands to the normalizer *)

Section TreeFacts.

Lemma dict_get_set_other {V : Type} (d : dict V) (k k' : pystr) (v : V) :
  k <> k' -> dict_get (dict_set d k v) k' = dict_get d k'.
Proof.
  intros Hne. induction d as [|[k0 v0] d IH]; simpl.
  - destruct (pystr_eqb k k') eqn:E; [|reflexivity].
    apply pystr_eqb_eq in E. contradiction.
  - destruct (pystr_eqb k0 k) eqn:E; simpl.
    + apply pystr_eqb_eq in E. subst k0.
      destruct (pystr_eqb k k') eqn:E'; [|reflexivity].
      apply pystr_eqb_eq in E'. contradiction.
    + rewrite IH. reflexivity.
Qed.

Lemma dict_set_in {V : Type} (d : dict V) (k k' : pystr) (v v' : V) :
  In (k', v') (dict_set d k v) -> (k', v') = (k, v) \/ In (k', v') d.
Proof.
  induction d as [|[k0 v0] d IH]; simpl.
  - intros [H|[]]; left; congruence.
  - destruct (pystr_eqb k0 k) eqn:E; simpl.
    + apply pystr_eqb_eq in E. subst k0. intros [H|H]; [left; congruence|tauto].
    + intros [H|H]; [tauto|]. destruct (IH H); tauto.
Qed.

(** Writing under a key the dictionary has keeps the keys and their order. *)
Lemma dict_set_present_keys {V : Type} (d : dict V) (k : pystr) (v w : V) :
  dict_get d k = Some w -> keys (dict_set d k v) = keys d.
Proof.
  induction d as [|[k0 v0] d IH]; simpl; [discriminate|].
  destruct (pystr_eqb k0 k) eqn:E; simpl; [reflexivity|].
  intros H. f_equal. apply IH, H.
Qed.

(** Writing back the value a key has changes nothing. *)
Lemma dict_set_same_value {V : Type} (d : dict V) (k : pystr) (v : V) :
  dict_get d k = Some v -> dict_set d k v = d.
Proof.
  induction d as [|[k0 v0] d IH]; simpl; [discriminate|].
  destruct (pystr_eqb k0 k) eqn:E; simpl.
  - intros [= ->]. reflexivity.
  - intros H. f_equal. apply IH, H.
Qed.

Lemma dict_set_shape (tree : TaxonomyTree) (t : pystr) (g g' : TacticGroup) :
  dict_get tree t = Some g -> keys g' = keys g ->
  shape (dict_set tree t g') = shape tree.
Proof.
  unfold shape. induction tree as [|[t0 g0] tree IH]; simpl; [discriminate|].
  destruct (pystr_eqb t0 t) eqn:E; simpl.
  - intros [= ->] ->. reflexivity.
  - intros H Hk. f_equal. apply IH; assumption.
Qed.

Lemma shape_keys (tree : TaxonomyTree) : map fst (shape tree) = keys tree.
Proof.
  unfold shape, keys. rewrite map_map. reflexivity.
Qed.

Lemma rewrite_key_keys (group group' : TacticGroup) (key : pystr) :
  rewrite_key group key = Ok group' -> keys group' = keys group.
Proof.
  unfold rewrite_key, subscript.
  destruct (contains key (py ".")); [|intros [= <-]; reflexivity].
  destruct (item (split key ".") 0) as [pk|]; cbn [bind]; [|discriminate].
  destruct (dict_get group pk); cbn [bind]; [|discriminate].
  destruct (dict_get group key) as [old|] eqn:E; cbn [bind]; [|discriminate].
  intros [= <-]. apply (dict_set_present_keys _ _ _ old), E.
Qed.

Lemma for_keys_keys (ks : list pystr) :
  forall group group' : TacticGroup,
    for_keys ks group = Ok group' -> keys group' = keys group.
Proof.
  induction ks as [|k ks IH]; intros group group'; cbn [for_keys].
  - intros [= <-]. reflexivity.
  - destruct (rewrite_key group k) as [g1|] eqn:E; cbn [bind]; [|discriminate].
    intros H. rewrite (IH _ _ H). apply (rewrite_key_keys _ _ _ E).
Qed.

Lemma for_tactics_shape (ts : list pystr) :
  forall tree tree' : TaxonomyTree,
    for_tactics ts tree = Ok tree' -> shape tree' = shape tree.
Proof.
  induction ts as [|t ts IH]; intros tree tree'; cbn [for_tactics].
  - intros [= <-]. reflexivity.
  - unfold subscript. destruct (dict_get tree t) as [g|] eqn:E; cbn [bind];
      [|discriminate].
    destruct (process_group g) as [g'|] eqn:P; cbn [bind]; [|discriminate].
    intros H. rewrite (IH _ _ H).
    apply (dict_set_shape tree t g g' E).
    apply (for_keys_keys _ _ _ P).
Qed.

Lemma for_keys_dot_free (ks : list pystr) (group : TacticGroup) :
  (forall key, In key ks -> contains key (py ".") = false) ->
  for_keys ks group = Ok group.
Proof.
  induction ks as [|k ks IH]; intros H; cbn [for_keys]; [reflexivity|].
  unfold rewrite_key. rewrite (H k) by (left; reflexivity). cbn [bind].
  apply IH. intros key Hin. apply H. right; exact Hin.
Qed.

Lemma for_tactics_dot_free (ts : list pystr) (tree : TaxonomyTree) :
  dot_free tree -> (forall t, In t ts -> In t (keys tree)) ->
  for_tactics ts tree = Ok tree.
Proof.
  intros Hd. induction ts as [|t ts IH]; intros Hin; cbn [for_tactics];
    [reflexivity|].
  destruct (dict_get_present tree t) as [g E]; [apply Hin; left; reflexivity|].
  unfold subscript. rewrite E. cbn [bind].
  unfold process_group. rewrite for_keys_dot_free.
  - cbn [bind]. rewrite (dict_set_same_value _ _ _ E).
    apply IH. intros t' H'. apply Hin. right; exact H'.
  - intros key Hk. apply (Hd t g key); [|exact Hk].
    apply dict_get_in, E.
Qed.

Lemma loop_body_wf (st st' : loop_state) (chunk : pystr) :
  state_wf st -> loop_body st chunk = Ok st' -> state_wf st'.
Proof.
  intros (Ha & Hg & Ht). unfold loop_body.
  destruct (contains chunk (py "technique")).
  - destruct (extractTechnique chunk) as [[idTag name]|]; cbn [bind];
      [|discriminate].
    intros [= <-]. repeat split; cbn [allResults tacticGroup]; auto.
    apply dict_set_wf, Ht.
  - destruct (contains chunk (py "tactic-label")).
    + destruct (extractTactic chunk) as [n|]; [|discriminate].
      intros [= <-]. repeat split; cbn [allResults tacticGroup].
      * apply dict_set_wf, Ha.
      * intros t g Hin. destruct (dict_set_in _ _ _ _ _ Hin) as [H|H].
        -- injection H as -> ->. exact Ht.
        -- apply (Hg t g H).
      * constructor.
    + intros [= <-]. repeat split; auto.
Qed.

Lemma main_loop_wf (cutData : list pystr) :
  forall st st' : loop_state,
    state_wf st -> main_loop cutData st = Ok st' -> state_wf st'.
Proof.
  induction cutData as [|chunk rest IH]; intros st st' Hwf; cbn [main_loop].
  - intros [= <-]. exact Hwf.
  - destruct (loop_body st chunk) as [st1|] eqn:E; cbn [bind]; [|discriminate].
    apply IH. apply (loop_body_wf _ _ _ Hwf E).
Qed.

Lemma build_tree_wf (cutData : list pystr) (tree : TaxonomyTree) :
  build_tree cutData = Ok tree ->
  dict_wf tree /\
  forall tactic group, In (tactic, group) tree -> dict_wf group.
Proof.
  unfold build_tree.
  destruct (main_loop cutData init_state) as [st|] eqn:E; cbn [bind];
    [|discriminate].
  intros [= <-].
  destruct (main_loop_wf cutData init_state st) as (Ha & Hg & _); auto.
  repeat split; cbn; try constructor. intros t g [].
Qed.

Lemma map_result_length {A B : Type} (f : A -> result B) (l : list A) :
  forall l', map_result f l = Ok l' -> List.length l' = List.length l.
Proof.
  induction l as [|a l IH]; intros l'; cbn [map_result].
  - intros [= <-]. reflexivity.
  - destruct (f a); cbn [bind]; [|discriminate].
    destruct (map_result f l) as [bs|]; cbn [bind]; [|discriminate].
    intros [= <-]. simpl. f_equal. apply IH. reflexivity.
Qed.

Lemma writer_length (tree : TaxonomyTree) :
  List.length (writer tree) =
  list_sum (map (fun ti => List.length (snd ti)) (shape tree)).
Proof.
  unfold writer, shape. induction tree as [|[t g] tree IH]; simpl;
    [reflexivity|].
  rewrite length_app, length_map, IH. unfold keys. rewrite length_map.
  reflexivity.
Qed.

(** A group stays under its key as long as no later label has that key. *)
Lemma main_loop_keeps_group (rest : list pystr) (key : pystr)
      (g : TacticGroup) :
  (forall c name, In c rest -> is_tactic_label c = true ->
                  extractTactic c = Some name -> tacticKey name <> key) ->
  forall st st' : loop_state,
    dict_get (allResults st) key = Some g ->
    main_loop rest st = Ok st' ->
    dict_get (allResults st') key = Some g.
Proof.
  induction rest as [|c rest IH]; intros Hk st st' Hg; cbn [main_loop].
  - intros [= <-]. exact Hg.
  - destruct (loop_body st c) as [st1|] eqn:E; cbn [bind]; [|discriminate].
    apply IH; [intros c' n Hin; apply Hk; right; exact Hin|].
    revert E. unfold loop_body.
    destruct (contains c (py "technique")) eqn:Et.
    + destruct (extractTechnique c) as [[i n]|]; cbn [bind]; [|discriminate].
      intros [= <-]. exact Hg.
    + destruct (contains c (py "tactic-label")) eqn:El.
      * destruct (extractTactic c) as [n|] eqn:En; [|discriminate].
        intros [= <-]. cbn [allResults].
        rewrite dict_get_set_other; [exact Hg|].
        apply (Hk c n); [left; reflexivity | | exact En].
        unfold is_tactic_label. rewrite Et, El. reflexivity.
      * intros [= <-]. exact Hg.
Qed.

Lemma shape_group (tree tree' : TaxonomyTree) (key : pystr)
      (g : TacticGroup) :
  shape tree' = shape tree -> In (key, g) tree ->
  exists g', In (key, g') tree' /\ keys g' = keys g.
Proof.
  intros Hs Hin.
  assert (H : In (key, keys g) (shape tree'))
    by (rewrite Hs; unfold shape;
        apply (in_map (fun tg : pystr * TacticGroup => (fst tg, keys (snd tg)))
                      tree (key, g) Hin)).
  unfold shape in H. apply in_map_iff in H as ([t g'] & Heq & Hin').
  cbn [fst snd] in Heq. injection Heq as -> Hk.
  exists g'. split; assumption.
Qed.

(** The writer has a line for each id of each group. *)
Lemma writer_has_line (tree : TaxonomyTree) (key id : pystr)
      (g : TacticGroup) :
  In (key, g) tree -> In id (keys g) ->
  exists name, In (tag_line key name id) (writer tree).
Proof.
  intros Hg Hid. unfold keys in Hid.
  apply in_map_iff in Hid as ([i n] & Hi & Hin). cbn [fst] in Hi. subst i.
  exists n. unfold writer. apply in_flat_map.
  exists (key, g). split; [exact Hg|]. cbn [fst snd].
  apply (in_map (fun kv : pystr * pystr => tag_line key (snd kv) (fst kv))
                g (id, n) Hin).
Qed.

End TreeFacts.

(** C1, as stated, fails: a technique chunk met before any tactic-label
    chunk is not lost. It waits in the accumulator and the first label
    that follows commits it, so it is in the tree and in the output. *)
Lemma leading_technique_is_committed :
  build_tree [technique_chunk "T1:Alpha"; tactic_label_chunk "Collection"]
  = Ok [(py "Collection", [(py "T1", py "Alpha")])] /\
  tags_of_chunks [technique_chunk "T1:Alpha"; tactic_label_chunk "Collection"]
  = Ok [py "Collection::Alpha T1" ++ [NL]] /\
  build_tree [technique_chunk "T1:Alpha"; tactic_label_chunk "Collection"]
  <> build_tree [tactic_label_chunk "Collection"].
Proof. vm_compute. repeat split; discriminate. Qed.

(** C1, amended. The technique chunks met before any tactic-label chunk
    are kept in the accumulator and committed by the first tactic-label
    chunk that follows them: after that label the tree is the single group
    of their entries under the label's key, every extracted id has an entry
    in that group, and the loop goes on from there with an empty
    accumulator. When no later label has the same key and the run ends
    without an exception, each of those ids has a line among the lines
    written, under that key. When the sequence holds no tactic-label chunk
    at all, the tree is empty and no line is written. *)
Theorem leading_techniques_commit_under_first_label
        (pre : list pystr) (entries : list (pystr * pystr))
        (label tacticName : pystr) (rest : list pystr) :
  (forall c, In c pre -> is_tactic_label c = false) ->
  extracted pre entries ->
  is_tactic_label label = true ->
  extractTactic label = Some tacticName ->
  build_tree (pre ++ [label])
  = Ok [(tacticKey tacticName, add_entries entries [])] /\
  (forall e, In e entries -> In (fst e) (keys (add_entries entries []))) /\
  main_loop (pre ++ label :: rest) init_state
  = main_loop rest
      {| allResults := [(tacticKey tacticName, add_entries entries [])];
         tacticGroup := [] |} /\
  (forall lines : list pystr,
     (forall c name, In c rest -> is_tactic_label c = true ->
                     extractTactic c = Some name ->
                     tacticKey name <> tacticKey tacticName) ->
     tags_of_chunks (pre ++ label :: rest) = Ok lines ->
     forall e, In e entries ->
       exists name,
         In (tag_line (tacticKey tacticName) name (fst e)) lines) /\
  build_tree pre = Ok [] /\
  tags_of_chunks pre = Ok [].
Proof.
  intros Hno Hex Hlab Hname.
  assert (Hpre : main_loop pre init_state
                 = Ok {| allResults := []; tacticGroup := add_entries entries [] |})
    by (apply main_loop_techniques; assumption).
  assert (Hgo : main_loop (pre ++ label :: rest) init_state
                = main_loop rest
                    {| allResults :=
                         [(tacticKey tacticName, add_entries entries [])];
                       tacticGroup := [] |}).
  { rewrite main_loop_app, Hpre. cbn [bind main_loop].
    rewrite (loop_body_label _ _ tacticName) by assumption. reflexivity. }
  split; [|split; [|split; [exact Hgo|split; [|split]]]].
  - unfold build_tree. rewrite main_loop_app, Hpre.
    cbn [bind main_loop]. rewrite (loop_body_label _ _ tacticName) by assumption.
    reflexivity.
  - intros e He. apply add_entries_has_keys. exact He.
  - intros lines Hk Hrun e He. revert Hrun.
    unfold tags_of_chunks, build_tree. rewrite Hgo.
    destruct (main_loop rest _) as [st'|] eqn:Em; cbn [bind]; [|discriminate].
    destruct (postProcessing (allResults st')) as [tree'|] eqn:Ep; cbn [bind];
      [|discriminate].
    intros [= <-].
    assert (Hg : dict_get (allResults st') (tacticKey tacticName)
                 = Some (add_entries entries [])).
    { apply (main_loop_keeps_group rest _ _ Hk _ _) with (2 := Em).
      cbn [allResults dict_get]. rewrite pystr_eqb_refl. reflexivity. }
    apply dict_get_in in Hg.
    destruct (shape_group _ _ _ _ (for_tactics_shape _ _ _ Ep) Hg)
      as (g' & Hin' & Hkeys).
    apply (writer_has_line tree' _ _ g' Hin').
    rewrite Hkeys. apply add_entries_has_keys. exact He.
  - unfold build_tree. rewrite Hpre. reflexivity.
  - unfold tags_of_chunks, build_tree. rewrite Hpre. reflexivity.
Qed.

Lemma leading_techniques_commit_under_first_label_witness :
  (build_tree ([technique_chunk "T1:Alpha"; technique_chunk "T2:Beta"]
              ++ [tactic_label_chunk "Collection"])
  = Ok [(tacticKey (py "Collection"),
         add_entries [(py "T1", py "Alpha"); (py "T2", py "Beta")] [])] /\
  (forall e, In e [(py "T1", py "Alpha"); (py "T2", py "Beta")] ->
     In (fst e)
        (keys (add_entries [(py "T1", py "Alpha"); (py "T2", py "Beta")] []))) /\
  main_loop ([technique_chunk "T1:Alpha"; technique_chunk "T2:Beta"]
             ++ tactic_label_chunk "Collection"
             :: [technique_chunk "T3:Gamma"; tactic_label_chunk "Impact"])
            init_state
  = main_loop [technique_chunk "T3:Gamma"; tactic_label_chunk "Impact"]
      {| allResults :=
           [(tacticKey (py "Collection"),
             add_entries [(py "T1", py "Alpha"); (py "T2", py "Beta")] [])];
         tacticGroup := [] |} /\
  (forall lines : list pystr,
     (forall c name,
        In c [technique_chunk "T3:Gamma"; tactic_label_chunk "Impact"] ->
        is_tactic_label c = true ->
        extractTactic c = Some name ->
        tacticKey name <> tacticKey (py "Collection")) ->
     tags_of_chunks
       ([technique_chunk "T1:Alpha"; technique_chunk "T2:Beta"]
        ++ tactic_label_chunk "Collection"
        :: [technique_chunk "T3:Gamma"; tactic_label_chunk "Impact"])
     = Ok lines ->
     forall e, In e [(py "T1", py "Alpha"); (py "T2", py "Beta")] ->
       exists name,
         In (tag_line (tacticKey (py "Collection")) name (fst e)) lines) /\
  build_tree [technique_chunk "T1:Alpha"; technique_chunk "T2:Beta"] = Ok [] /\
  tags_of_chunks [technique_chunk "T1:Alpha"; technique_chunk "T2:Beta"]
  = Ok []) /\
  tags_of_chunks
    ([technique_chunk "T1:Alpha"; technique_chunk "T2:Beta"]
     ++ tactic_label_chunk "Collection"
     :: [technique_chunk "T3:Gamma"; tactic_label_chunk "Impact"])
  = Ok [tag_line (py "Collection") (py "Alpha") (py "T1");
        tag_line (py "Collection") (py "Beta") (py "T2");
        tag_line (py "Impact") (py "Gamma") (py "T3")].
Proof.
  split; [|vm_compute; reflexivity].
  apply (leading_techniques_commit_under_first_label
           [technique_chunk "T1:Alpha"; technique_chunk "T2:Beta"]
           [(py "T1", py "Alpha"); (py "T2", py "Beta")]
           (tactic_label_chunk "Collection") (py "Collection")
           [technique_chunk "T3:Gamma"; tactic_label_chunk "Impact"]).
  - apply two_techniques_extracted.
  - apply two_techniques_extracted.
  - reflexivity.
  - reflexivity.
Defined.

(** C10. The chunks after the last tactic-label chunk change neither the
    tree nor the output: whenever the run over the whole sequence ends,
    the run over the sequence without that tail ends with the same tree
    and writes the same lines; when the technique chunks of the tail all
    extract, the two runs agree outright; and a sequence without any
    tactic-label chunk leaves the tree empty and writes nothing. *)
Theorem trailing_techniques_never_committed (pre suf : list pystr) :
  (forall c, In c suf -> is_tactic_label c = false) ->
  (forall tree, build_tree (pre ++ suf) = Ok tree -> build_tree pre = Ok tree) /\
  (forall out, tags_of_chunks (pre ++ suf) = Ok out ->
               tags_of_chunks pre = Ok out) /\
  ((forall c, In c suf -> is_technique c = true ->
              exists e, extractTechnique c = Ok e) ->
   build_tree (pre ++ suf) = build_tree pre /\
   tags_of_chunks (pre ++ suf) = tags_of_chunks pre) /\
  (forall tree, build_tree suf = Ok tree -> tree = []) /\
  (forall out, tags_of_chunks suf = Ok out -> out = []).
Proof.
  intros Hno.
  assert (H1 : forall tree, build_tree (pre ++ suf) = Ok tree ->
                            build_tree pre = Ok tree).
  { intros tree. unfold build_tree. rewrite main_loop_app.
    destruct (main_loop pre init_state) as [st1|e]; cbn [bind]; [|discriminate].
    destruct (main_loop suf st1) as [st2|e] eqn:E2; cbn [bind]; [|discriminate].
    intros [= <-]. rewrite (main_loop_keeps_tree suf st1 st2 Hno E2). reflexivity. }
  assert (H3 : (forall c, In c suf -> is_technique c = true ->
                          exists e, extractTechnique c = Ok e) ->
               build_tree (pre ++ suf) = build_tree pre).
  { intros Hex. unfold build_tree. rewrite main_loop_app.
    destruct (main_loop pre init_state) as [st1|e]; cbn [bind]; [|reflexivity].
    destruct (main_loop_no_label_runs suf st1 Hno Hex) as (st2 & E2 & Ea).
    rewrite E2. cbn [bind]. rewrite Ea. reflexivity. }
  assert (H4 : forall tree, build_tree suf = Ok tree -> tree = []).
  { intros tree. unfold build_tree.
    destruct (main_loop suf init_state) as [st2|e] eqn:E2; cbn [bind];
      [|discriminate].
    intros [= <-]. apply (main_loop_keeps_tree suf init_state st2 Hno E2). }
  repeat split.
  - exact H1.
  - intros out. unfold tags_of_chunks.
    destruct (build_tree (pre ++ suf)) as [tree|e] eqn:E; cbn [bind];
      [|discriminate].
    rewrite (H1 tree eq_refl). cbn [bind]. auto.
  - apply H3; assumption.
  - unfold tags_of_chunks. rewrite H3 by assumption. reflexivity.
  - exact H4.
  - intros out. unfold tags_of_chunks.
    destruct (build_tree suf) as [tree|e] eqn:E; cbn [bind]; [|discriminate].
    rewrite (H4 tree eq_refl). cbn. intros [= <-]. reflexivity.
Qed.

Lemma trailing_techniques_never_committed_witness :
  ((forall tree, build_tree (committed_chunks ++ trailing_chunks) = Ok tree ->
                 build_tree committed_chunks = Ok tree) /\
   (forall out, tags_of_chunks (committed_chunks ++ trailing_chunks) = Ok out ->
                tags_of_chunks committed_chunks = Ok out) /\
   ((forall c, In c trailing_chunks -> is_technique c = true ->
               exists e, extractTechnique c = Ok e) ->
    build_tree (committed_chunks ++ trailing_chunks)
    = build_tree committed_chunks /\
    tags_of_chunks (committed_chunks ++ trailing_chunks)
    = tags_of_chunks committed_chunks) /\
   (forall tree, build_tree trailing_chunks = Ok tree -> tree = []) /\
   (forall out, tags_of_chunks trailing_chunks = Ok out -> out = [])) /\
  tags_of_chunks (committed_chunks ++ trailing_chunks)
  = Ok [py "Collection::Alpha T1" ++ [NL]].
Proof.
  split.
  - apply (trailing_techniques_never_committed committed_chunks trailing_chunks).
    intros c [<-|[<-|[]]]; reflexivity.
  - vm_compute. reflexivity.
Defined.

Section Occurrence.

Lemma startswith_prefix (p rest : pystr) : startswith (p ++ rest) p = true.
Proof. apply startswith_app. exists rest; reflexivity. Qed.

(** A text in which [p] stands somewhere contains [p]. *)
Lemma occurs_contains (pre p post : pystr) :
  contains (pre ++ p ++ post) p = true.
Proof.
  unfold contains. induction pre as [|c pre IH].
  - simpl app. rewrite find_index_here by apply startswith_prefix. reflexivity.
  - destruct (startswith ((c :: pre) ++ p ++ post) p) eqn:E.
    + rewrite find_index_here by exact E. reflexivity.
    + change ((c :: pre) ++ p ++ post) with (c :: (pre ++ p ++ post)) in *.
      rewrite find_index_cons by exact E.
      destruct (find_index (pre ++ p ++ post) p); [reflexivity | discriminate].
Qed.

End Occurrence.

(** C6 against the code. Both markers are searched from the start of the
    remaining text, so an end marker that stands before the first start
    marker is taken as the end of the chunk: for "</g><g>x</g>" the chunker
    yields an empty chunk first, then ">x", although the text nowhere has
    a start marker with an end marker right after it; the only text
    between a start marker and the next end marker is ">x". *)
Theorem stray_end_marker_yields_chunk :
  cutByPhrases (py "</g><g>x</g>") (py "<g") (py "</g>")
  = Some [[]; py ">x"] /\
  ~ (exists before after,
       py "</g><g>x</g>" = before ++ (py "<g" ++ [] ++ py "</g>") ++ after) /\
  py "</g><g>x</g>" = py "</g>" ++ py "<g" ++ py ">x" ++ py "</g>" ++ [].
Proof.
  split; [vm_compute; reflexivity | split; [|reflexivity]].
  intros (before & after & H).
  pose proof (occurs_contains before (py "<g" ++ [] ++ py "</g>") after) as Hc.
  rewrite <- H in Hc. vm_compute in Hc. discriminate.
Qed.

(** * Further properties of the script *)

(** ** Occurrences across a concatenation *)

Section Straddle.

Lemma startswith_nil_r (s : pystr) : startswith s [] = true.
Proof. destruct s; reflexivity. Qed.

(** A prefix test that fits in the left part does not look at the right. *)
Lemma startswith_app_left (u v p : pystr) :
  (List.length p <= List.length u)%nat ->
  startswith (u ++ v) p = startswith u p.
Proof.
  revert p; induction u as [|x u IH]; intros [|a p] H; simpl in *;
    try reflexivity; try lia.
  - destruct v; reflexivity.
  - rewrite IH by lia. reflexivity.
Qed.

(** A prefix test on [a ++ b] succeeds inside [a], or [a] is a proper
    beginning of [p] that [b] completes. *)
Lemma startswith_app_split (a b p : pystr) :
  startswith (a ++ b) p = true ->
  startswith a p = true \/
  ((List.length a < List.length p)%nat /\
   a = firstn (List.length a) p /\
   startswith b (skipn (List.length a) p) = true).
Proof.
  revert p; induction a as [|x a IH]; intros p H.
  - destruct p as [|c p]; [left; reflexivity|].
    right. simpl. repeat split; [lia | exact H].
  - destruct p as [|c p]; [left; reflexivity|].
    simpl in H. apply andb_true_iff in H as [Hc Hr].
    destruct (IH p Hr) as [Hin|(Hl & Hf & Hs)].
    + left. simpl. rewrite Hc, Hin. reflexivity.
    + right. apply Ascii.eqb_eq in Hc. subst x. simpl.
      repeat split; [lia | f_equal; exact Hf | exact Hs].
Qed.

Lemma contains_cons_false (x : ascii) (s p : pystr) :
  contains (x :: s) p = false <->
  startswith (x :: s) p = false /\ contains s p = false.
Proof.
  unfold contains. destruct (startswith (x :: s) p) eqn:E.
  - rewrite (find_index_here _ _ E). split; [discriminate | intros [? _]; discriminate].
  - rewrite (find_index_cons _ _ _ E).
    destruct (find_index s p); simpl; split; auto; intros [_ ?]; discriminate.
Qed.

(** An occurrence in [a ++ b] lies in [a], lies in [b], or straddles the
    seam: some proper beginning of [p] ends [a] and [b] begins with the
    rest of [p]. *)
Lemma contains_app_cases (a b p : pystr) :
  contains (a ++ b) p = true ->
  contains a p = true \/ contains b p = true \/
  exists k, (0 < k < List.length p)%nat /\ (k <= List.length a)%nat /\
            skipn (List.length a - k) a = firstn k p /\
            startswith b (skipn k p) = true.
Proof.
  induction a as [|x a IH]; intros H; [right; left; exact H|].
  destruct (startswith ((x :: a) ++ b) p) eqn:E.
  - destruct (startswith_app_split _ _ _ E) as [Hin|(Hl & Hf & Hs)].
    + left. unfold contains. rewrite (find_index_here _ _ Hin). reflexivity.
    + right; right. exists (List.length (x :: a)).
      rewrite Nat.sub_diag. simpl skipn.
      repeat split; [simpl; lia | exact Hl | lia | exact Hf | exact Hs].
  - assert (Ha : contains (a ++ b) p = true).
    { destruct (contains (a ++ b) p) eqn:C; [reflexivity|].
      assert (contains ((x :: a) ++ b) p = false)
        by (apply contains_cons_false; split; assumption).
      congruence. }
    destruct (IH Ha) as [Hin|[Hin|(k & Hk & Hka & Hsuf & Hs)]].
    + left. destruct (contains (x :: a) p) eqn:C; [reflexivity|].
      apply contains_cons_false in C as [_ C]. congruence.
    + right; left; exact Hin.
    + right; right. exists k. repeat split; try lia; [simpl; lia | | exact Hs].
      replace (List.length (x :: a) - k)%nat
        with (S (List.length a - k)) by (cbn [List.length]; lia).
      exact Hsuf.
Qed.

(** When [p] begins nowhere in [a ++ removelast p], its first occurrence
    in [a ++ p ++ r] is the one after [a]. *)
Lemma find_index_after (a p r : pystr) :
  contains (a ++ removelast p) p = false ->
  find_index (a ++ p ++ r) p = Some (List.length a).
Proof.
  intros H. induction a as [|x a IH].
  - apply find_index_here. apply startswith_app. exists r; reflexivity.
  - apply contains_cons_false in H as [Hs Hc].
    assert (Hp : p <> []).
    { intros ->. rewrite startswith_nil_r in Hs. discriminate. }
    assert (E : startswith ((x :: a) ++ p ++ r) p = false).
    { rewrite (app_removelast_last "000"%char Hp) at 1.
      rewrite <- app_assoc, app_assoc.
      rewrite startswith_app_left; [exact Hs|].
      rewrite length_app. simpl.
      assert (List.length p = S (List.length (removelast p))).
      { rewrite (app_removelast_last "000"%char Hp) at 1.
        rewrite length_app. simpl. lia. }
      lia. }
    change ((x :: a) ++ p ++ r) with (x :: (a ++ p ++ r)) in *.
    rewrite (find_index_cons _ _ _ E), (IH Hc). reflexivity.
Qed.

End Straddle.

Section Seams.

Lemma contains_app_false (a b p : pystr) :
  contains a p = false ->
  contains b p = false ->
  (forall k, (0 < k < List.length p)%nat -> (k <= List.length a)%nat ->
             skipn (List.length a - k) a = firstn k p ->
             startswith b (skipn k p) = false) ->
  contains (a ++ b) p = false.
Proof.
  intros Ha Hb Hk. destruct (contains (a ++ b) p) eqn:C; [|reflexivity].
  destruct (contains_app_cases _ _ _ C) as [H|[H|(k & H1 & H2 & H3 & H4)]];
    try congruence.
  rewrite (Hk k H1 H2 H3) in H4. discriminate.
Qed.

(** The text between two occurrences, when the first ends before the
    second begins. *)
Lemma between_occurrences (s p1 p2 : pystr) (i1 i2 : nat) :
  find_index s p1 = Some i1 ->
  find_index s p2 = Some i2 ->
  (i1 + List.length p1 <= i2)%nat ->
  s = firstn i1 s ++ p1
      ++ firstn (i2 - (i1 + List.length p1)) (skipn (i1 + List.length p1) s)
      ++ p2 ++ skipn (i2 + List.length p2) s.
Proof.
  intros F1 F2 Hle.
  pose proof (find_index_bound _ _ _ F2) as Hb.
  pose proof (find_index_bound _ _ _ F1) as Hb1.
  rewrite (find_index_split _ _ _ F2) at 1. rewrite !app_assoc. do 2 f_equal.
  rewrite (firstn_split_at s (i1 + List.length p1) i2) by lia.
  f_equal. rewrite (find_index_split _ _ _ F1) at 1.
  rewrite app_assoc, firstn_app.
  rewrite firstn_all2 by (rewrite length_app, length_firstn; lia).
  rewrite length_app, length_firstn.
  replace (i1 + List.length p1
           - (Nat.min i1 (List.length s) + List.length p1))%nat
    with 0%nat by lia.
  rewrite firstn_0, app_nil_r. reflexivity.
Qed.

Lemma extractPattern_found (s p1 p2 : pystr) (i1 i2 : nat) :
  find_index s p1 = Some i1 ->
  find_index s p2 = Some i2 ->
  (i1 + List.length p1 <= i2)%nat ->
  extractPattern s p1 p2
  = firstn (i2 - (i1 + List.length p1)) (skipn (i1 + List.length p1) s).
Proof.
  intros F1 F2 Hle. unfold extractPattern, find, len. rewrite F1, F2.
  rewrite <- Nat2Z.inj_add. apply slice_between.
  pose proof (find_index_bound _ _ _ F2). lia.
Qed.

(** The text cut from [a ++ p1 ++ body ++ p2 ++ r] when the two phrases
    first occur at the places shown. *)
Lemma extractPattern_framed (a p1 body p2 r : pystr) :
  find_index (a ++ p1 ++ body ++ p2 ++ r) p1 = Some (List.length a) ->
  find_index (a ++ p1 ++ body ++ p2 ++ r) p2
  = Some (List.length a + List.length p1 + List.length body)%nat ->
  extractPattern (a ++ p1 ++ body ++ p2 ++ r) p1 p2 = body.
Proof.
  intros F1 F2. rewrite (extractPattern_found _ _ _ _ _ F1 F2) by lia.
  rewrite app_assoc, skipn_app, skipn_all2 by (rewrite length_app; lia).
  rewrite length_app.
  replace (List.length a + List.length p1
           - (List.length a + List.length p1))%nat with 0%nat by lia.
  simpl skipn. simpl app at 1.
  replace (List.length a + List.length p1 + List.length body
           - (List.length a + List.length p1))%nat
    with (List.length body) by lia.
  rewrite firstn_app, firstn_all, Nat.sub_diag. simpl.
  apply app_nil_r.
Qed.

End Seams.

(** Closes the seam cases of a concrete phrase: each length [k] of a
    beginning of the phrase in turn. *)
Tactic Notation "seams" integer(n) :=
  let k := fresh "k" in
  let H := fresh "H" in
  intros k H ? ?; simpl in H;
  do n (destruct k as [|k]; [first [lia | discriminate | reflexivity]|]);
  lia.

(** X1. For a line made of a part without '>' and without "</tspan", then
    '>', then a label without "</tspan", then "</tspan" and anything, the
    text [extractPattern] cuts between '>' and "</tspan" is the label. *)
Theorem extractPattern_label (pre body post : pystr) :
  contains pre (py ">") = false ->
  contains pre (py "</tspan") = false ->
  contains body (py "</tspan") = false ->
  extractPattern (pre ++ py ">" ++ body ++ py "</tspan" ++ post)
                 (py ">") (py "</tspan")
  = body.
Proof.
  intros Hgt Hpre Hbody. apply extractPattern_framed.
  - apply find_index_after. simpl removelast. rewrite app_nil_r. exact Hgt.
  - replace (pre ++ py ">" ++ body ++ py "</tspan" ++ post)
      with ((pre ++ py ">" ++ body) ++ py "</tspan" ++ post)
      by (rewrite <- !app_assoc; reflexivity).
    replace (List.length pre + List.length (py ">") + List.length body)%nat
      with (List.length (pre ++ py ">" ++ body))
      by (rewrite !length_app; lia).
    apply find_index_after.
    apply contains_app_false; [|reflexivity|seams 7].
    apply contains_app_false; [exact Hpre| |seams 7].
    apply contains_app_false; [reflexivity|exact Hbody|seams 7].
Qed.

Lemma extractPattern_label_witness :
  extractPattern
    (py "<tspan x='4' y='9'" ++ py ">" ++ py "B0001: Debugger <i>Detection</i>"
     ++ py "</tspan" ++ py ">")
    (py ">") (py "</tspan")
  = py "B0001: Debugger <i>Detection</i>".
Proof.
  apply (extractPattern_label (py "<tspan x='4' y='9'")
           (py "B0001: Debugger <i>Detection</i>") (py ">"));
    reflexivity.
Defined.

Lemma adjust_index_minus_one (n : Z) :
  0 <= n -> adjust_index n (-1) = Z.max 0 (n - 1).
Proof.
  intros H. unfold adjust_index.
  change (-1 <? 0) with true. cbv beta iota zeta.
  destruct (Z.ltb_spec (-1 + n) 0); [lia|].
  destruct (Z.ltb_spec n (-1 + n)); lia.
Qed.

(** X2. When the end phrase does not occur in the line, [find] answers -1
    and the slice stops one character before the end: [extractPattern]
    answers the text after the start phrase without its last character. *)
Theorem extractPattern_end_absent (s p1 p2 : pystr) (i1 : nat) :
  find_index s p1 = Some i1 ->
  find_index s p2 = None ->
  extractPattern s p1 p2 = removelast (skipn (i1 + List.length p1) s).
Proof.
  intros F1 F2. pose proof (find_index_bound _ _ _ F1) as Hb.
  unfold extractPattern, find, slice, len. rewrite F1, F2.
  rewrite <- Nat2Z.inj_add.
  rewrite (adjust_index_id _ (Z.of_nat (i1 + List.length p1))) by lia.
  rewrite adjust_index_minus_one by lia. rewrite Nat2Z.id.
  rewrite removelast_firstn_len, length_skipn. f_equal. lia.
Qed.

Lemma extractPattern_end_absent_witness :
  extractPattern (py "<tspan x='4'>B0001: Debugger") (py ">") (py "</tspan")
  = removelast (skipn (12 + List.length (py ">"))
                      (py "<tspan x='4'>B0001: Debugger")) /\
  extractPattern (py "<tspan x='4'>B0001: Debugger") (py ">") (py "</tspan")
  = py "B0001: Debugge".
Proof.
  split.
  - apply (extractPattern_end_absent (py "<tspan x='4'>B0001: Debugger")
             (py ">") (py "</tspan") 12); reflexivity.
  - vm_compute. reflexivity.
Defined.

(** X3. When a start phrase of one character (as '>' in the script) does
    not occur in the line, the slice starts at index -1 + 1 = 0:
    [extractPattern] answers all that stands before the end phrase. *)
Theorem extractPattern_start_absent (s p2 : pystr) (c : ascii) (i2 : nat) :
  find_index s [c] = None ->
  find_index s p2 = Some i2 ->
  extractPattern s [c] p2 = firstn i2 s.
Proof.
  intros F1 F2. pose proof (find_index_bound _ _ _ F2) as Hb.
  unfold extractPattern, find. rewrite F1, F2.
  change (-1 + len [c]) with (Z.of_nat 0).
  rewrite slice_between by lia. rewrite Nat.sub_0_r. reflexivity.
Qed.

Lemma extractPattern_start_absent_witness :
  extractPattern (py "<tspan x='4' B0001</tspan") (py ">") (py "</tspan")
  = firstn 18 (py "<tspan x='4' B0001</tspan").
Proof.
  apply (extractPattern_start_absent (py "<tspan x='4' B0001</tspan")
           (py "</tspan") ">"%char 18); reflexivity.
Defined.

(** ** The chunker on a document of groups *)

Section Groups.

Lemma find_index_contains (s p : pystr) (i : nat) :
  find_index s p = Some i -> contains s p = true.
Proof. unfold contains. intros ->. reflexivity. Qed.

Lemma cut_step_group (junk body rest : pystr) (acc : list pystr) :
  plain_group (junk, body) ->
  cut_step (py "<g") (py "</g>")
           {| text := junk ++ py "<g" ++ body ++ py "</g>" ++ rest;
              cutResults := acc |}
  = Some {| text := rest; cutResults := acc ++ [body] |}.
Proof.
  intros (Hj1 & Hj2 & Hb). simpl in Hj1, Hj2, Hb.
  set (t := junk ++ py "<g" ++ body ++ py "</g>" ++ rest).
  assert (F1 : find_index t (py "<g") = Some (List.length junk)).
  { apply find_index_after.
    apply contains_app_false; [exact Hj1 | reflexivity | seams 2]. }
  assert (F2 : find_index t (py "</g>")
               = Some (List.length junk + List.length (py "<g")
                       + List.length body)%nat).
  { unfold t.
    replace (junk ++ py "<g" ++ body ++ py "</g>" ++ rest)
      with ((junk ++ py "<g" ++ body) ++ py "</g>" ++ rest)
      by (rewrite <- !app_assoc; reflexivity).
    replace (List.length junk + List.length (py "<g") + List.length body)%nat
      with (List.length (junk ++ py "<g" ++ body))
      by (rewrite !length_app; lia).
    apply find_index_after.
    apply contains_app_false; [|reflexivity|seams 4].
    apply contains_app_false; [exact Hj2| |seams 4].
    apply contains_app_false; [reflexivity|exact Hb|seams 4]. }
  unfold cut_step. cbn [text cutResults].
  rewrite (find_index_contains _ _ _ F1), (find_index_contains _ _ _ F2).
  cbn [andb]. f_equal. f_equal.
  - unfold find at 1. rewrite F2. unfold len. rewrite <- Nat2Z.inj_add.
    rewrite slice_from_skipn
      by (unfold t; rewrite !length_app; simpl; lia).
    unfold t. rewrite !app_assoc.
    rewrite skipn_app, skipn_all2 by (rewrite !length_app; simpl; lia).
    replace (_ - _)%nat with 0%nat by (rewrite !length_app; simpl; lia).
    reflexivity.
  - f_equal. f_equal. change (extractPattern t (py "<g") (py "</g>") = body).
    apply extractPattern_framed; assumption.
Qed.

Lemma cut_loop_groups (tail : pystr) (groups : list (pystr * pystr)) :
  Forall plain_group groups ->
  contains tail (py "<g") = false ->
  forall (acc : list pystr) (fuel : nat),
    (List.length (render_groups groups tail) <= fuel)%nat ->
    cut_loop fuel (py "<g") (py "</g>")
             {| text := render_groups groups tail; cutResults := acc |}
    = Some (acc ++ map snd groups).
Proof.
  intros Hall Htail. induction Hall as [|[junk body] rest Hg Hrest IH];
    intros acc fuel Hf.
  - simpl. rewrite app_nil_r. apply cut_loop_stops.
    apply cut_step_none. left. exact Htail.
  - cbn [render_groups] in *.
    destruct fuel as [|fuel];
      [rewrite !length_app in Hf; simpl in Hf; lia|].
    cbn [cut_loop]. rewrite (cut_step_group _ _ _ _ Hg).
    rewrite IH by (rewrite !length_app in Hf; simpl in Hf; lia).
    cbn [map snd]. rewrite <- app_assoc. reflexivity.
Qed.

(** Every chunk costs at least an end phrase of text. *)
Lemma cut_loop_count (phrase1 phrase2 : pystr) (fuel : nat) :
  forall (st : cut_state) (chunks : list pystr),
    cut_loop fuel phrase1 phrase2 st = Some chunks ->
    (List.length chunks * List.length phrase2
     <= List.length (cutResults st) * List.length phrase2
        + List.length (text st))%nat.
Proof.
  induction fuel as [|fuel IH]; intros st chunks; simpl;
    destruct (cut_step phrase1 phrase2 st) as [st'|] eqn:E;
    try discriminate; try (intros [= <-]; lia).
  intros H. apply IH in H.
  apply cut_step_some in E as (i1 & i2 & _ & F2 & Ht & Hc).
  apply find_index_bound in F2.
  rewrite Hc, length_app in H. rewrite Ht, length_skipn in H.
  simpl in H. lia.
Qed.

End Groups.

(** X4. Cutting a document written group by group gives back the bodies
    of its groups, in order, and nothing else, provided the text before
    each group holds neither marker, no body holds the end marker, and
    the text after the last group holds no start marker. A body may hold
    start markers, and the tail end markers: groups that are nested in
    the document come out as the outer body up to the first end marker. *)
Theorem cutByPhrases_render_groups
        (groups : list (pystr * pystr)) (tail : pystr) :
  Forall plain_group groups ->
  contains tail (py "<g") = false ->
  cutByPhrases (render_groups groups tail) (py "<g") (py "</g>")
  = Some (map snd groups).
Proof.
  intros Hall Htail. unfold cutByPhrases.
  rewrite (cut_loop_groups tail groups Hall Htail []) by lia.
  reflexivity.
Qed.

Lemma cutByPhrases_render_groups_witness :
  cutByPhrases
    (render_groups
       [(py "<svg>", py ">z"); (py "y", py " id='a'><g id='b'>x")]
       (py "</g></svg>"))
    (py "<g") (py "</g>")
  = Some (map snd
            [(py "<svg>", py ">z"); (py "y", py " id='a'><g id='b'>x")]).
Proof.
  apply (cutByPhrases_render_groups
           [(py "<svg>", py ">z"); (py "y", py " id='a'><g id='b'>x")]
           (py "</g></svg>")).
  - repeat constructor.
  - reflexivity.
Defined.

Section ChunkerSteps.

Variables phrase1 phrase2 : pystr.

(** The chunks already cut ride along unchanged. *)
Lemma cut_loop_acc (fuel : nat) :
  forall (t : pystr) (acc : list pystr),
    cut_loop fuel phrase1 phrase2 {| text := t; cutResults := acc |}
    = option_map (app acc)
        (cut_loop fuel phrase1 phrase2 {| text := t; cutResults := [] |}).
Proof.
  induction fuel as [|fuel IH]; intros t acc; simpl; unfold cut_step;
    cbn [text cutResults];
    destruct (contains t phrase1 && contains t phrase2); simpl;
    try (rewrite app_nil_r; reflexivity); try reflexivity.
  rewrite (IH _ (acc ++ _)), (IH _ [_]).
  destruct (cut_loop fuel phrase1 phrase2 _); simpl; [|reflexivity].
  rewrite <- app_assoc. reflexivity.
Qed.

(** The first turn of [cutByPhrases], for a non-empty end phrase. *)
Lemma cutByPhrases_first (t : pystr) (i1 i2 : nat) :
  phrase2 <> [] ->
  find_index t phrase1 = Some i1 ->
  find_index t phrase2 = Some i2 ->
  cutByPhrases t phrase1 phrase2
  = option_map
      (cons (slice t (Z.of_nat (i1 + List.length phrase1)) (Z.of_nat i2)))
      (cutByPhrases (skipn (i2 + List.length phrase2) t) phrase1 phrase2).
Proof.
  intros Hne F1 F2. pose proof (find_index_bound _ _ _ F2) as Hb.
  assert (Hstep : cut_step phrase1 phrase2 {| text := t; cutResults := [] |}
                  = Some {| text := skipn (i2 + List.length phrase2) t;
                            cutResults :=
                              [slice t (Z.of_nat (i1 + List.length phrase1))
                                     (Z.of_nat i2)] |}).
  { unfold cut_step. cbn [text cutResults].
    rewrite (find_index_contains _ _ _ F1), (find_index_contains _ _ _ F2).
    cbn [andb]. unfold find. rewrite F1, F2. unfold len.
    rewrite <- !Nat2Z.inj_add. rewrite slice_from_skipn by lia. reflexivity. }
  unfold cutByPhrases.
  destruct (List.length t) as [|n] eqn:Hn.
  { destruct phrase2; [congruence | simpl in Hb; lia]. }
  cbn [cut_loop]. rewrite Hstep, cut_loop_acc. f_equal.
  set (rest := skipn (i2 + List.length phrase2) t).
  destruct (cut_loop_total phrase1 phrase2 (List.length rest) Hne
              {| text := rest; cutResults := [] |}) as [chunks Hc];
    [simpl; lia|].
  rewrite (Hc n), (Hc (List.length rest)); [reflexivity | lia |].
  unfold rest. rewrite length_skipn.
  destruct phrase2; [congruence | simpl in *; lia].
Qed.

End ChunkerSteps.

(** X5. With a non-empty end phrase, a text that holds both phrases gives
    a first chunk, the slice from the end of the first start phrase to
    the first end phrase, followed by the chunks of the text after that
    end phrase: the text before the start phrase and the text between the
    end phrase and the next start phrase are in no chunk. *)
Theorem cutByPhrases_unfolds (t phrase1 phrase2 : pystr) (i1 i2 : nat) :
  phrase2 <> [] ->
  find_index t phrase1 = Some i1 ->
  find_index t phrase2 = Some i2 ->
  exists rest_chunks,
    cutByPhrases (skipn (i2 + List.length phrase2) t) phrase1 phrase2
    = Some rest_chunks /\
    cutByPhrases t phrase1 phrase2
    = Some (slice t (Z.of_nat (i1 + List.length phrase1)) (Z.of_nat i2)
            :: rest_chunks).
Proof.
  intros Hne F1 F2.
  rewrite (cutByPhrases_first phrase1 phrase2 t i1 i2 Hne F1 F2).
  destruct (cut_loop_total phrase1 phrase2
              (List.length (skipn (i2 + List.length phrase2) t)) Hne
              {| text := skipn (i2 + List.length phrase2) t;
                 cutResults := [] |}) as [chunks Hc]; [simpl; lia|].
  exists chunks. unfold cutByPhrases at 1 2.
  rewrite (Hc _ (Nat.le_refl _)). split; reflexivity.
Qed.

Lemma cutByPhrases_unfolds_witness :
  exists rest_chunks,
    cutByPhrases (skipn (11 + List.length (py "</g>"))
                        (py "ab<g c>d<e></g>f<g>h</g>"))
                 (py "<g") (py "</g>")
    = Some rest_chunks /\
    cutByPhrases (py "ab<g c>d<e></g>f<g>h</g>") (py "<g") (py "</g>")
    = Some (slice (py "ab<g c>d<e></g>f<g>h</g>")
                  (Z.of_nat (2 + List.length (py "<g"))) (Z.of_nat 11)
            :: rest_chunks).
Proof.
  apply (cutByPhrases_unfolds (py "ab<g c>d<e></g>f<g>h</g>")
           (py "<g") (py "</g>") 2 11); [discriminate | reflexivity..].
Defined.

(** X6. When the first end phrase begins before the first start phrase
    has ended (an end marker nothing opens), the chunker still yields a
    chunk, the empty one, and goes on after that end phrase. *)
Theorem cutByPhrases_crossed (t phrase1 phrase2 : pystr) (i1 i2 : nat) :
  phrase2 <> [] ->
  find_index t phrase1 = Some i1 ->
  find_index t phrase2 = Some i2 ->
  (i2 <= i1 + List.length phrase1)%nat ->
  cutByPhrases t phrase1 phrase2
  = option_map (cons [])
      (cutByPhrases (skipn (i2 + List.length phrase2) t) phrase1 phrase2).
Proof.
  intros Hne F1 F2 Hle.
  rewrite (cutByPhrases_first phrase1 phrase2 t i1 i2 Hne F1 F2).
  rewrite slice_crossed; [reflexivity | exact Hle |].
  apply find_index_bound in F2. lia.
Qed.

Lemma cutByPhrases_crossed_witness :
  cutByPhrases (py "</g>y<g b>z</g>") (py "<g") (py "</g>")
  = option_map (cons [])
      (cutByPhrases (skipn (0 + List.length (py "</g>")) (py "</g>y<g b>z</g>"))
                    (py "<g") (py "</g>")).
Proof.
  apply (cutByPhrases_crossed (py "</g>y<g b>z</g>") (py "<g") (py "</g>") 5 0);
    [discriminate | reflexivity | reflexivity | simpl; lia].
Defined.

(** X7. Each chunk uses up at least one end phrase of the text: the
    number of chunks times the length of the end phrase is at most the
    length of the text. *)
Theorem chunk_count_bound (t phrase1 phrase2 : pystr) (chunks : list pystr) :
  cutByPhrases t phrase1 phrase2 = Some chunks ->
  (List.length chunks * List.length phrase2 <= List.length t)%nat.
Proof.
  intros H. apply cut_loop_count in H. simpl in H. exact H.
Qed.

Lemma chunk_count_bound_witness :
  (List.length [py " a>x"; py " b>y"] * List.length (py "</g>")
   <= List.length (py "<svg><g a>x</g>junk<g b>y</g></svg>"))%nat.
Proof.
  apply (chunk_count_bound (py "<svg><g a>x</g>junk<g b>y</g></svg>")
           (py "<g") (py "</g>") [py " a>x"; py " b>y"]).
  reflexivity.
Defined.

(** ** The traversal loop: what it skips, what stops it *)

Section LoopFacts.

Lemma loop_body_irrelevant (st : loop_state) (chunk : pystr) :
  relevant chunk = false -> loop_body st chunk = Ok st.
Proof.
  unfold relevant, loop_body. intros H.
  apply orb_false_iff in H as [-> ->]. reflexivity.
Qed.

Lemma main_loop_filter (chunks : list pystr) :
  forall st, main_loop chunks st = main_loop (filter relevant chunks) st.
Proof.
  induction chunks as [|c l IH]; intros st; [reflexivity|].
  cbn [filter main_loop]. destruct (relevant c) eqn:R.
  - cbn [main_loop]. destruct (loop_body st c); cbn [bind]; auto.
  - rewrite (loop_body_irrelevant _ _ R). cbn [bind]. apply IH.
Qed.

Lemma first_tspan_none (lines : list pystr) :
  (forall line, In line lines -> contains line (py "tspan") = false) ->
  first_tspan lines = None.
Proof.
  induction lines as [|l ls IH]; intros H; [reflexivity|].
  cbn [first_tspan]. rewrite (H l) by (left; reflexivity).
  apply IH. intros; apply H; right; assumption.
Qed.

Lemma loop_body_label_none (st : loop_state) (chunk : pystr) :
  is_tactic_label chunk = true ->
  extractTactic chunk = None ->
  loop_body st chunk = Raise AttributeError.
Proof.
  unfold is_tactic_label, loop_body. intros H He.
  apply andb_true_iff in H as [H1 H2]. apply negb_true_iff in H1.
  rewrite H1, H2, He. reflexivity.
Qed.

(** The only exception [extractTechnique] raises is [IndexError]. *)
Lemma extractTechnique_raises (chunk : pystr) (e : exn) :
  extractTechnique chunk = Raise e -> e = IndexError.
Proof.
  unfold extractTechnique, labelText, item.
  destruct (nth_error _ 0); cbn [bind]; [|intros [= <-]; reflexivity].
  destruct (nth_error _ 0); cbn [bind]; [|intros [= <-]; reflexivity].
  destruct (nth_error _ 1); cbn [bind]; [discriminate|].
  intros [= <-]; reflexivity.
Qed.

Lemma loop_body_raises (st : loop_state) (chunk : pystr) (e : exn) :
  loop_body st chunk = Raise e -> e = IndexError \/ e = AttributeError.
Proof.
  unfold loop_body. destruct (contains chunk (py "technique")).
  - destruct (extractTechnique chunk) as [[i n]|e0] eqn:E; cbn [bind];
      [discriminate|].
    intros [= <-]. left. apply (extractTechnique_raises chunk). exact E.
  - destruct (contains chunk (py "tactic-label")); [|discriminate].
    destruct (extractTactic chunk); [discriminate|].
    intros [= <-]. right; reflexivity.
Qed.

Lemma main_loop_raises (chunks : list pystr) :
  forall st e, main_loop chunks st = Raise e ->
               e = IndexError \/ e = AttributeError.
Proof.
  induction chunks as [|c l IH]; intros st e; cbn [main_loop]; [discriminate|].
  destruct (loop_body st c) as [st1|e1] eqn:E; cbn [bind].
  - apply IH.
  - intros [= <-]. apply (loop_body_raises st c). exact E.
Qed.

Lemma for_keys_raises (ks : list pystr) :
  forall group e, for_keys ks group = Raise e -> exists k, e = KeyError k.
Proof.
  induction ks as [|k l IH]; intros group e; cbn [for_keys]; [discriminate|].
  destruct (rewrite_key group k) as [g1|e1] eqn:E; cbn [bind].
  - apply IH.
  - intros [= <-]. revert E. unfold rewrite_key.
    destruct (contains k (py ".")); [|discriminate].
    rewrite item_0_split. cbn [bind]. unfold subscript.
    destruct (dict_get group _); cbn [bind]; [|intros [= <-]; eauto].
    destruct (dict_get group k); cbn [bind]; [discriminate|].
    intros [= <-]; eauto.
Qed.

Lemma for_tactics_raises (ts : list pystr) :
  forall tree e, for_tactics ts tree = Raise e -> exists k, e = KeyError k.
Proof.
  induction ts as [|t l IH]; intros tree e; cbn [for_tactics]; [discriminate|].
  unfold subscript. destruct (dict_get tree t) as [g|]; cbn [bind];
    [|intros [= <-]; eauto].
  destruct (process_group g) as [g1|e1] eqn:E; cbn [bind].
  - apply IH.
  - intros [= <-]. apply (for_keys_raises _ _ _ E).
Qed.

(** A chunk on which the body raises stops the loop, wherever it stands
    after chunks that run through. *)
Lemma main_loop_stops_at (pre rest : list pystr) (chunk : pystr)
      (st0 st : loop_state) (e : exn) :
  main_loop pre st0 = Ok st ->
  loop_body st chunk = Raise e ->
  main_loop (pre ++ chunk :: rest) st0 = Raise e.
Proof.
  intros Hp Hb. rewrite main_loop_app, Hp. cbn [bind main_loop].
  rewrite Hb. reflexivity.
Qed.

End LoopFacts.

(** X8. Chunks that mention neither "technique" nor "tactic-label" have
    no effect at all: the loop, the tree and the lines written are those
    of the chunk sequence with such chunks removed. *)
Theorem irrelevant_chunks_skipped (chunks : list pystr) (st : loop_state) :
  main_loop chunks st = main_loop (filter relevant chunks) st /\
  build_tree chunks = build_tree (filter relevant chunks) /\
  tags_of_chunks chunks = tags_of_chunks (filter relevant chunks).
Proof.
  split; [apply main_loop_filter|].
  assert (H : build_tree chunks = build_tree (filter relevant chunks))
    by (unfold build_tree; rewrite main_loop_filter; reflexivity).
  split; [exact H|]. unfold tags_of_chunks. rewrite H. reflexivity.
Qed.

(** X9. A tactic-label chunk none of whose lines mentions "tspan" makes
    [extractTactic] answer [None], and the [replace] call on it ends the
    run with [AttributeError]: when the chunks before it run through,
    the loop raises there, whatever follows, and nothing is written. *)
Theorem label_without_tspan_aborts
        (pre rest : list pystr) (chunk : pystr) (st : loop_state) :
  main_loop pre init_state = Ok st ->
  is_tactic_label chunk = true ->
  (forall line, In line (split chunk NL) ->
                contains line (py "tspan") = false) ->
  extractTactic chunk = None /\
  main_loop (pre ++ chunk :: rest) init_state = Raise AttributeError /\
  tags_of_chunks (pre ++ chunk :: rest) = Raise AttributeError.
Proof.
  intros Hp Hl Hno.
  assert (He : extractTactic chunk = None)
    by (apply first_tspan_none; exact Hno).
  assert (Hm : main_loop (pre ++ chunk :: rest) init_state
               = Raise AttributeError).
  { apply (main_loop_stops_at pre rest chunk init_state st); [exact Hp|].
    apply loop_body_label_none; assumption. }
  repeat split; [exact He | exact Hm |].
  unfold tags_of_chunks, build_tree. rewrite Hm. reflexivity.
Qed.

Lemma label_without_tspan_aborts_witness :
  extractTactic (py " class='tactic-label'>") = None /\
  main_loop ([technique_chunk "T1:Alpha"] ++ py " class='tactic-label'>"
             :: [tactic_label_chunk "Collection"]) init_state
  = Raise AttributeError /\
  tags_of_chunks ([technique_chunk "T1:Alpha"] ++ py " class='tactic-label'>"
                  :: [tactic_label_chunk "Collection"])
  = Raise AttributeError.
Proof.
  apply (label_without_tspan_aborts [technique_chunk "T1:Alpha"]
           [tactic_label_chunk "Collection"] (py " class='tactic-label'>")
           {| allResults := []; tacticGroup := [(py "T1", py "Alpha")] |}).
  - reflexivity.
  - reflexivity.
  - intros line H. vm_compute in H. destruct H as [<-|[]]. reflexivity.
Defined.

(** X10. One technique chunk that does not extract ends the whole run:
    if the chunk sequence holds a technique chunk on which
    [extractTechnique] raises, the script raises and writes no line,
    whatever the other chunks are. *)
Theorem malformed_technique_aborts_run
        (cutData : list pystr) (chunk : pystr) (e : exn) :
  In chunk cutData ->
  is_technique chunk = true ->
  extractTechnique chunk = Raise e ->
  exists e', main_loop cutData init_state = Raise e' /\
             tags_of_chunks cutData = Raise e'.
Proof.
  intros Hin Ht He.
  assert (Hb : forall st, loop_body st chunk = Raise e).
  { intros st. unfold loop_body. unfold is_technique in Ht.
    rewrite Ht, He. reflexivity. }
  assert (Hm : forall st, exists e', main_loop cutData st = Raise e').
  { clear Ht He. induction cutData as [|c l IH]; intros st; [destruct Hin|].
    cbn [main_loop]. destruct Hin as [->|Hin].
    - rewrite Hb. cbn [bind]. eauto.
    - destruct (loop_body st c) as [st1|e1]; cbn [bind]; [|eauto].
      apply IH; assumption. }
  destruct (Hm init_state) as [e' He']. exists e'. split; [exact He'|].
  unfold tags_of_chunks, build_tree. rewrite He'. reflexivity.
Qed.

Lemma malformed_technique_aborts_run_witness :
  exists e',
    main_loop [technique_chunk "T1:Alpha"; tactic_label_chunk "Collection";
               technique_chunk "T2 Beta"] init_state = Raise e' /\
    tags_of_chunks [technique_chunk "T1:Alpha"; tactic_label_chunk "Collection";
                    technique_chunk "T2 Beta"] = Raise e'.
Proof.
  apply (malformed_technique_aborts_run
           [technique_chunk "T1:Alpha"; tactic_label_chunk "Collection";
            technique_chunk "T2 Beta"]
           (technique_chunk "T2 Beta") IndexError).
  - right; right; left; reflexivity.
  - reflexivity.
  - reflexivity.
Defined.

(** X11. The exceptions the traversal loop and the normalizer can raise,
    that is, all that runs between the chunker and the first line written:
    the traversal loop raises only [IndexError] (from [extractTechnique])
    or [AttributeError] (a label chunk without "tspan"), and when it runs
    through, the normalizer raises only [KeyError]. What writing a line to
    the file may raise is no part of this statement. *)
Theorem run_exceptions (cutData : list pystr) (e : exn) :
  (tree <- build_tree cutData ;; postProcessing tree) = Raise e ->
  (main_loop cutData init_state = Raise e /\
   (e = IndexError \/ e = AttributeError)) \/
  (exists tree k, build_tree cutData = Ok tree /\
                  postProcessing tree = Raise e /\ e = KeyError k).
Proof.
  unfold build_tree.
  destruct (main_loop cutData init_state) as [st|e0] eqn:E; cbn [bind].
  - destruct (postProcessing (allResults st)) as [t|e1] eqn:P;
      [discriminate|].
    intros [= <-]. right.
    destruct (for_tactics_raises _ _ _ P) as [k Hk].
    exists (allResults st), k. auto.
  - intros [= <-]. left. split; [reflexivity|].
    apply (main_loop_raises cutData init_state). exact E.
Qed.

Lemma run_exceptions_witness :
  (main_loop [technique_chunk "T1.2:Beta"; tactic_label_chunk "Collection"]
             init_state = Raise (KeyError (py "T1")) /\
   (KeyError (py "T1") = IndexError \/ KeyError (py "T1") = AttributeError)) \/
  (exists tree k,
     build_tree [technique_chunk "T1.2:Beta"; tactic_label_chunk "Collection"]
     = Ok tree /\
     postProcessing tree = Raise (KeyError (py "T1")) /\
     KeyError (py "T1") = KeyError k).
Proof.
  apply (run_exceptions
           [technique_chunk "T1.2:Beta"; tactic_label_chunk "Collection"]
           (KeyError (py "T1"))).
  reflexivity.
Defined.

(** X12. Whatever chunk sequence the loop runs through, the tree it hands
    on holds each tactic once and each id once within its group, so on it
    [postProcessing] computes what the snapshot normalizer computes: parent
    names are read as the loop stored them, never after a rewrite. *)
Theorem built_tree_normalized_by_snapshot
        (cutData : list pystr) (tree : TaxonomyTree) :
  build_tree cutData = Ok tree ->
  dict_wf tree /\
  (forall tactic group, In (tactic, group) tree -> dict_wf group) /\
  postProcessing tree = normalize_snapshot tree /\
  tags_of_chunks cutData = (tree' <- normalize_snapshot tree ;; Ok (writer tree')).
Proof.
  intros H. destruct (build_tree_wf cutData tree H) as [Ha Hg].
  assert (Hp : postProcessing tree = normalize_snapshot tree)
    by (apply postProcessing_snapshot; assumption).
  repeat split; auto.
  unfold tags_of_chunks. rewrite H. cbn [bind]. rewrite Hp. reflexivity.
Qed.

Lemma built_tree_normalized_by_snapshot_witness :
  dict_wf [(py "Collection", [(py "T1", py "Alpha"); (py "T1.2", py "Beta")])] /\
  (forall tactic group,
     In (tactic, group)
        [(py "Collection", [(py "T1", py "Alpha"); (py "T1.2", py "Beta")])] ->
     dict_wf group) /\
  postProcessing
    [(py "Collection", [(py "T1", py "Alpha"); (py "T1.2", py "Beta")])]
  = normalize_snapshot
      [(py "Collection", [(py "T1", py "Alpha"); (py "T1.2", py "Beta")])] /\
  tags_of_chunks [technique_chunk "T1:Alpha"; technique_chunk "T1.2: Beta";
                  technique_chunk "T1: Alpha";
                  tactic_label_chunk "Collection Micro-objective"]
  = (tree' <- normalize_snapshot
                [(py "Collection",
                  [(py "T1", py "Alpha"); (py "T1.2", py "Beta")])] ;;
     Ok (writer tree')).
Proof.
  apply (built_tree_normalized_by_snapshot
           [technique_chunk "T1:Alpha"; technique_chunk "T1.2: Beta";
            technique_chunk "T1: Alpha";
            tactic_label_chunk "Collection Micro-objective"]).
  vm_compute. reflexivity.
Defined.

(** X13. [postProcessing] changes names only: when it returns, the tree has
    the same tactics in the same order, each with the same ids in the same
    order, so the writer emits as many lines as it would have before. *)
Theorem postProcessing_keeps_shape (tree tree' : TaxonomyTree) :
  postProcessing tree = Ok tree' ->
  shape tree' = shape tree /\
  keys tree' = keys tree /\
  List.length (writer tree') = List.length (writer tree).
Proof.
  intros H. apply for_tactics_shape in H.
  split; [exact H|]. split.
  - rewrite <- !shape_keys, H. reflexivity.
  - rewrite !writer_length, H. reflexivity.
Qed.

Lemma postProcessing_keeps_shape_witness :
  shape [(py "Collection",
          [(py "T001", py "Alpha"); (py "T001.002", py "Alpha::Beta");
           (py "T001.002.003", py "Alpha::Gamma")]);
         (py "Defense Evasion", [(py "B0002", py "Delta")])]
  = shape sample_tree /\
  keys [(py "Collection",
          [(py "T001", py "Alpha"); (py "T001.002", py "Alpha::Beta");
           (py "T001.002.003", py "Alpha::Gamma")]);
         (py "Defense Evasion", [(py "B0002", py "Delta")])]
  = keys sample_tree /\
  List.length
    (writer [(py "Collection",
              [(py "T001", py "Alpha"); (py "T001.002", py "Alpha::Beta");
               (py "T001.002.003", py "Alpha::Gamma")]);
             (py "Defense Evasion", [(py "B0002", py "Delta")])])
  = List.length (writer sample_tree).
Proof.
  apply (postProcessing_keeps_shape sample_tree).
  vm_compute. reflexivity.
Defined.

(** X14. On a tree none of whose ids has a dot [postProcessing] raises
    nothing and returns the tree as it was. *)
Theorem postProcessing_dot_free (tree : TaxonomyTree) :
  dot_free tree -> postProcessing tree = Ok tree.
Proof.
  intros H. unfold postProcessing.
  apply for_tactics_dot_free; auto.
Qed.

Lemma postProcessing_dot_free_witness :
  postProcessing
    [(py "Collection", [(py "B0001", py "Alpha"); (py "B0002", py "Beta")]);
     (py "Impact", [(py "B0003", py "Gamma")])]
  = Ok [(py "Collection", [(py "B0001", py "Alpha"); (py "B0002", py "Beta")]);
        (py "Impact", [(py "B0003", py "Gamma")])].
Proof.
  apply (postProcessing_dot_free
           [(py "Collection",
             [(py "B0001", py "Alpha"); (py "B0002", py "Beta")]);
            (py "Impact", [(py "B0003", py "Gamma")])]).
  intros t g k [H|[H|[]]] Hk; injection H as <- <-; simpl in Hk;
    repeat (destruct Hk as [<-|Hk]; [reflexivity|]); destruct Hk.
Defined.

(** X15. A run that ends well writes one line for each id of each group of
    the tree the loop built, no more and no fewer. *)
Theorem one_line_per_entry (cutData lines : list pystr) :
  tags_of_chunks cutData = Ok lines ->
  exists tree : TaxonomyTree,
    build_tree cutData = Ok tree /\
    List.length lines =
    list_sum (map (fun tg : pystr * TacticGroup => List.length (snd tg)) tree).
Proof.
  unfold tags_of_chunks.
  destruct (build_tree cutData) as [tree|]; cbn [bind]; [|discriminate].
  destruct (postProcessing tree) as [tree'|] eqn:P; cbn [bind]; [|discriminate].
  intros [= <-]. exists tree. split; [reflexivity|].
  rewrite writer_length, (for_tactics_shape _ _ _ P).
  unfold shape. rewrite map_map. f_equal.
  apply map_ext. intros [t g]. unfold keys. apply length_map.
Qed.

Lemma one_line_per_entry_witness :
  exists tree : TaxonomyTree,
    build_tree [technique_chunk "T1:Alpha"; technique_chunk "T1.2: Beta";
                tactic_label_chunk "Collection Micro-objective"] = Ok tree /\
    List.length [py "Collection::Alpha T1" ++ [NL];
                 py "Collection::Alpha::Beta T1.2" ++ [NL]] =
    list_sum (map (fun tg : pystr * TacticGroup => List.length (snd tg)) tree).
Proof.
  apply (one_line_per_entry
           [technique_chunk "T1:Alpha"; technique_chunk "T1.2: Beta";
            tactic_label_chunk "Collection Micro-objective"]).
  vm_compute. reflexivity.
Defined.

(** ** The preprocessing step *)

Section Preprocessing.

Let sep : pystr := [">"%char; NL; "<"%char].

Lemma startswith_gt_lt (s : pystr) :
  startswith s (py "><") = true <->
  exists r, s = ">"%char :: "<"%char :: r.
Proof.
  change (py "><") with [">"%char; "<"%char].
  destruct s as [|a [|b r]]; cbn [startswith].
  - split; [discriminate | intros [r H]; discriminate].
  - rewrite andb_false_r. split; [discriminate | intros [r H]; discriminate].
  - rewrite startswith_nil_r, andb_true_r, andb_true_iff, !Ascii.eqb_eq.
    split.
    + intros [<- <-]. eauto.
    + intros [r' H]. injection H as -> -> _. auto.
Qed.

Lemma replace_scan_hd_lt (s : pystr) :
  hd_error (replace_scan s (py "><") sep 0) = Some "<"%char ->
  hd_error s = Some "<"%char.
Proof.
  destruct s as [|c s]; [discriminate|]. cbn [replace_scan].
  destruct (startswith (c :: s) (py "><")); [discriminate|].
  simpl. auto.
Qed.

Lemma replace_scan_separates (s : pystr) :
  contains (replace_scan s (py "><") sep 0) (py "><") = false /\
  contains (replace_scan s (py "><") sep 1) (py "><") = false.
Proof.
  induction s as [|c s [IH0 IH1]]; [split; reflexivity|].
  split; [|exact IH0].
  cbn [replace_scan]. destruct (startswith (c :: s) (py "><")) eqn:E.
  - change (List.length (py "><") - 1)%nat with 1%nat.
    unfold sep. cbn [app].
    do 3 (apply contains_cons_false; split; [reflexivity|]).
    exact IH1.
  - apply contains_cons_false. split; [|exact IH0].
    destruct (startswith (c :: replace_scan s (py "><") sep 0) (py "><"))
      eqn:F; [|reflexivity].
    apply startswith_gt_lt in F as [r F]. injection F as -> F.
    assert (H : hd_error s = Some "<"%char)
      by (apply replace_scan_hd_lt; exact (f_equal (@hd_error ascii) F)).
    destruct s as [|b s]; [discriminate|]. injection H as ->.
    assert (T : startswith (">"%char :: "<"%char :: s) (py "><") = true)
      by (apply startswith_gt_lt; eauto).
    congruence.
Qed.

End Preprocessing.

(** X16. After the preprocessing step no tag follows another on the same
    line: the text the chunker receives holds no "><" any more, and
    running the step a second time would change nothing. *)
Theorem preprocessing_separates_tags (rawData : pystr) :
  contains (replace rawData (py "><") [">"%char; NL; "<"%char]) (py "><")
  = false /\
  replace (replace rawData (py "><") [">"%char; NL; "<"%char])
          (py "><") [">"%char; NL; "<"%char]
  = replace rawData (py "><") [">"%char; NL; "<"%char].
Proof.
  assert (H : contains (replace rawData (py "><") [">"%char; NL; "<"%char])
                       (py "><") = false)
    by apply replace_scan_separates.
  split; [exact H|].
  set (t := replace rawData (py "><") [">"%char; NL; "<"%char]) in *.
  change (replace t (py "><") [">"%char; NL; "<"%char])
    with (replace_scan t (py "><") [">"%char; NL; "<"%char] 0).
  apply replace_scan_absent. unfold contains in H.
  destruct (find_index t (py "><")); [discriminate | reflexivity].
Qed.

(** ** What [extractTechnique] answers *)

Section Strip.

Lemma lstrip_suffix (s : pystr) :
  exists w, s = w ++ lstrip s /\ forallb isspace w = true.
Proof.
  induction s as [|c s (w & Hw & Hs)]; [exists []; auto|].
  cbn [lstrip]. destruct (isspace c) eqn:E.
  - exists (c :: w). split; [simpl; congruence|]. simpl. rewrite E. exact Hs.
  - exists []. auto.
Qed.

Lemma lstrip_hd (s : pystr) (c : ascii) :
  hd_error (lstrip s) = Some c -> isspace c = false.
Proof.
  induction s as [|a s IH]; [discriminate|]. cbn [lstrip].
  destruct (isspace a) eqn:E; [exact IH|].
  intros [= <-]. exact E.
Qed.

Lemma lstrip_fixed (s : pystr) :
  (forall c, hd_error s = Some c -> isspace c = false) -> lstrip s = s.
Proof.
  destruct s as [|a s]; [reflexivity|]. intros H. cbn [lstrip].
  rewrite (H a eq_refl). reflexivity.
Qed.

Lemma lstrip_in (s : pystr) (c : ascii) : In c (lstrip s) -> In c s.
Proof.
  destruct (lstrip_suffix s) as (w & Hw & _). intros H.
  rewrite Hw. apply in_or_app. right. exact H.
Qed.

Lemma strip_in (s : pystr) (c : ascii) : In c (strip s) -> In c s.
Proof.
  unfold strip, rstrip. intros H.
  apply lstrip_in. apply in_rev. apply lstrip_in. apply in_rev in H. exact H.
Qed.

Lemma hd_error_app_l {A : Type} (a b : list A) :
  a <> [] -> hd_error (a ++ b) = hd_error a.
Proof.
  destruct a; [congruence | reflexivity].
Qed.

(** Stripping what is already stripped changes nothing. *)
Lemma strip_strip (s : pystr) : strip (strip s) = strip s.
Proof.
  unfold strip, rstrip.
  set (t := lstrip s). set (u := lstrip (rev t)).
  assert (Hu : forall c, hd_error u = Some c -> isspace c = false)
    by (intros c; apply lstrip_hd).
  assert (Hr : forall c, hd_error (rev u) = Some c -> isspace c = false).
  { intros c Hc. destruct (lstrip_suffix (rev t)) as (w & Hw & _).
    fold u in Hw. apply (f_equal (@rev ascii)) in Hw.
    rewrite rev_involutive, rev_app_distr in Hw.
    apply (lstrip_hd s c). fold t. rewrite Hw.
    rewrite hd_error_app_l; [exact Hc|].
    intros Hn. rewrite Hn in Hc. discriminate. }
  rewrite (lstrip_fixed (rev u) Hr), rev_involutive.
  rewrite (lstrip_fixed u Hu). reflexivity.
Qed.

Lemma split_piece_no_sep (s : pystr) (sep : ascii) :
  forall w, In w (split s sep) -> ~ In sep w.
Proof.
  induction s as [|c s IH]; cbn [split].
  - intros w [<-|[]]. simpl. tauto.
  - destruct (Ascii.eqb c sep) eqn:E.
    + intros w [<-|H]; [simpl; tauto | apply IH, H].
    + apply Ascii.eqb_neq in E.
      destruct (split s sep) as [|w0 ws].
      * intros w [<-|[]]. simpl. intros [H|[]]. congruence.
      * intros w [<-|H].
        -- simpl. intros [H|H]; [congruence|].
           apply (IH w0); [left; reflexivity | exact H].
        -- apply IH. right. exact H.
Qed.

Lemma item_in {A : Type} (l : list A) (i : nat) (a : A) :
  item l i = Ok a -> In a l.
Proof.
  unfold item. destruct (nth_error l i) eqn:E; [|discriminate].
  intros [= <-]. apply (nth_error_In _ _ E).
Qed.

End Strip.

(** X17. Whatever [extractTechnique] answers is clean: neither the id nor
    the name holds a colon, and neither begins or ends with white space
    (stripping them again changes nothing). *)
Theorem extractTechnique_fields_clean (chunk idTag name : pystr) :
  extractTechnique chunk = Ok (idTag, name) ->
  ~ In ":"%char idTag /\ ~ In ":"%char name /\
  strip idTag = idTag /\ strip name = name.
Proof.
  unfold extractTechnique.
  destruct (labelText chunk) as [label|]; cbn [bind]; [|discriminate].
  destruct (item (split label ":") 0) as [t0|] eqn:E0; cbn [bind];
    [|discriminate].
  destruct (item (split label ":") 1) as [t1|] eqn:E1; cbn [bind];
    [|discriminate].
  intros [= <- <-].
  apply item_in, split_piece_no_sep in E0.
  apply item_in, split_piece_no_sep in E1.
  repeat split; try apply strip_strip;
    intros H; apply strip_in in H; tauto.
Qed.

Lemma extractTechnique_fields_clean_witness :
  ~ In ":"%char (py "B0001.002") /\ ~ In ":"%char (py "Debugger Detection") /\
  strip (py "B0001.002") = py "B0001.002" /\
  strip (py "Debugger Detection") = py "Debugger Detection".
Proof.
  apply (extractTechnique_fields_clean
           (technique_chunk " B0001.002 : Debugger Detection :x")).
  vm_compute. reflexivity.
Defined.

(** X18. A tactic label whose key the tree already has adds no tactic: the
    group stored under that key is replaced by the techniques gathered
    since the previous label, so the techniques committed under it before
    are dropped; the other tactics and the order of the tactics stay. *)
Theorem repeated_label_replaces_group
        (pre : list pystr) (label name : pystr) (st : loop_state) :
  main_loop pre init_state = Ok st ->
  is_tactic_label label = true ->
  extractTactic label = Some name ->
  In (tacticKey name) (keys (allResults st)) ->
  exists tree : TaxonomyTree,
    build_tree (pre ++ [label]) = Ok tree /\
    keys tree = keys (allResults st) /\
    dict_get tree (tacticKey name) = Some (tacticGroup st) /\
    forall k, k <> tacticKey name ->
              dict_get tree k = dict_get (allResults st) k.
Proof.
  intros Hpre Hl He Hin.
  exists (dict_set (allResults st) (tacticKey name) (tacticGroup st)).
  split; [|split; [|split]].
  - unfold build_tree. rewrite main_loop_app, Hpre. cbn [bind main_loop].
    rewrite (loop_body_label st label name Hl He). reflexivity.
  - destruct (dict_get_present _ _ Hin) as [old Hold].
    apply (dict_set_present_keys _ _ _ old Hold).
  - apply dict_get_set_same.
  - intros k Hk. apply dict_get_set_other. congruence.
Qed.

Lemma repeated_label_replaces_group_witness :
  exists tree : TaxonomyTree,
    build_tree ([technique_chunk "T1:Alpha"; tactic_label_chunk "Collection";
                 technique_chunk "T2:Beta"]
                ++ [tactic_label_chunk "Collection Micro-objective"])
    = Ok tree /\
    keys tree = keys [(py "Collection", [(py "T1", py "Alpha")])] /\
    dict_get tree (tacticKey (py "Collection Micro-objective"))
    = Some [(py "T2", py "Beta")] /\
    forall k, k <> tacticKey (py "Collection Micro-objective") ->
              dict_get tree k
              = dict_get [(py "Collection", [(py "T1", py "Alpha")])] k.
Proof.
  apply (repeated_label_replaces_group
           [technique_chunk "T1:Alpha"; tactic_label_chunk "Collection";
            technique_chunk "T2:Beta"]
           (tactic_label_chunk "Collection Micro-objective")
           (py "Collection Micro-objective")
           {| allResults := [(py "Collection", [(py "T1", py "Alpha")])];
              tacticGroup := [(py "T2", py "Beta")] |}).
  - vm_compute. reflexivity.
  - vm_compute. reflexivity.
  - vm_compute. reflexivity.
  - vm_compute. left. reflexivity.
Defined.

(** ** Lines of a chunk *)

Section Lines.

Lemma split_app_sep (a b : pystr) (sep : ascii) :
  split (a ++ sep :: b) sep = split a sep ++ split b sep.
Proof.
  induction a as [|c a IH]; cbn [app split].
  - rewrite Ascii.eqb_refl. reflexivity.
  - destruct (Ascii.eqb c sep); [rewrite IH; reflexivity|].
    rewrite IH. destruct (split_cons a sep) as (w & ws & ->). reflexivity.
Qed.

Lemma split_line (line rest : pystr) :
  ~ In NL line ->
  split (line ++ NL :: rest) NL = line :: split rest NL.
Proof.
  intros H. rewrite split_app_sep, (split_no_sep line NL H). reflexivity.
Qed.




Lemma first_tspan_skip (a b : list pystr) :
  (forall l, In l a -> contains l (py "tspan") = false) ->
  first_tspan (a ++ b) = first_tspan b.
Proof.
  induction a as [|l a IH]; intros H; [reflexivity|].
  cbn [app first_tspan]. rewrite (H l) by (left; reflexivity).
  apply IH. intros l' Hl. apply H. right; exact Hl.
Qed.



End Lines.

(** X19. [extractTactic] reads one line only, the first that mentions
    "tspan": when the lines before it do not mention it, the answer is the
    pattern cut from that line, whatever follows, further tspan lines
    included. *)
Theorem extractTactic_first_tspan_line (pre line rest : pystr) :
  (forall l, In l (split pre NL) -> contains l (py "tspan") = false) ->
  ~ In NL line ->
  contains line (py "tspan") = true ->
  extractTactic (pre ++ NL :: line ++ NL :: rest)
  = Some (extractPattern line (py ">") (py "</tspan")).
Proof.
  intros Hpre Hline Hc. unfold extractTactic.
  rewrite split_app_sep, (split_line line rest Hline).
  rewrite (first_tspan_skip _ _ Hpre). cbn [first_tspan].
  rewrite Hc. reflexivity.
Qed.

Lemma extractTactic_first_tspan_line_witness :
  extractTactic
    (py " class='tactic-label'>" ++ NL
     :: py "<tspan x='4'>Anti-Behavioral</tspan>" ++ NL
     :: py "<tspan x='4'>Analysis</tspan>")
  = Some (extractPattern (py "<tspan x='4'>Anti-Behavioral</tspan>")
                         (py ">") (py "</tspan")) /\
  extractPattern (py "<tspan x='4'>Anti-Behavioral</tspan>")
                 (py ">") (py "</tspan")
  = py "Anti-Behavioral".
Proof.
  split; [|vm_compute; reflexivity].
  apply (extractTactic_first_tspan_line
           (py " class='tactic-label'>")
           (py "<tspan x='4'>Anti-Behavioral</tspan>")
           (py "<tspan x='4'>Analysis</tspan>")).
  - intros l H. vm_compute in H. destruct H as [<-|[]]. reflexivity.
  - vm_compute. intuition discriminate.
  - reflexivity.
Defined.



(** X21. A technique chunk whose id the open group already has adds no
    entry: the name stored under that id is replaced, in place, and the
    rest of the state stays. *)
Theorem repeated_id_keeps_last_name
        (pre : list pystr) (chunk idTag name : pystr) (st : loop_state) :
  main_loop pre init_state = Ok st ->
  is_technique chunk = true ->
  extractTechnique chunk = Ok (idTag, name) ->
  In idTag (keys (tacticGroup st)) ->
  exists st' : loop_state,
    main_loop (pre ++ [chunk]) init_state = Ok st' /\
    allResults st' = allResults st /\
    keys (tacticGroup st') = keys (tacticGroup st) /\
    dict_get (tacticGroup st') idTag = Some name /\
    forall k, k <> idTag ->
              dict_get (tacticGroup st') k = dict_get (tacticGroup st) k.
Proof.
  intros Hpre Ht He Hin.
  exists {| allResults := allResults st;
            tacticGroup := dict_set (tacticGroup st) idTag name |}.
  cbn [allResults tacticGroup]. split; [|split; [|split; [|split]]].
  - rewrite main_loop_app, Hpre. cbn [bind main_loop].
    unfold loop_body. unfold is_technique in Ht. rewrite Ht, He. reflexivity.
  - reflexivity.
  - destruct (dict_get_present _ _ Hin) as [old Hold].
    apply (dict_set_present_keys _ _ _ old Hold).
  - apply dict_get_set_same.
  - intros k Hk. apply dict_get_set_other. congruence.
Qed.

Lemma repeated_id_keeps_last_name_witness :
  exists st' : loop_state,
    main_loop ([technique_chunk "T1:Alpha"; technique_chunk "T2:Beta"]
               ++ [technique_chunk "T1:Gamma"]) init_state = Ok st' /\
    allResults st' = [] /\
    keys (tacticGroup st') = keys [(py "T1", py "Alpha"); (py "T2", py "Beta")] /\
    dict_get (tacticGroup st') (py "T1") = Some (py "Gamma") /\
    forall k, k <> py "T1" ->
              dict_get (tacticGroup st') k
              = dict_get [(py "T1", py "Alpha"); (py "T2", py "Beta")] k.
Proof.
  apply (repeated_id_keeps_last_name
           [technique_chunk "T1:Alpha"; technique_chunk "T2:Beta"]
           (technique_chunk "T1:Gamma") (py "T1") (py "Gamma")
           {| allResults := [];
              tacticGroup := [(py "T1", py "Alpha"); (py "T2", py "Beta")] |}).
  - vm_compute. reflexivity.
  - vm_compute. reflexivity.
  - vm_compute. reflexivity.
  - vm_compute. left. reflexivity.
Defined.

(** ** Markers through the preprocessing step *)

Section Markers.

Let sep : pystr := [">"%char; NL; "<"%char].

Variable p : pystr.
Hypothesis p_no_NL : ~ In NL p.
Hypothesis p_no_seam : contains p (py "><") = false.

Lemma replace_scan_lt (s : pystr) :
  replace_scan ("<"%char :: s) (py "><") sep 0
  = "<"%char :: replace_scan s (py "><") sep 0.
Proof. reflexivity. Qed.

Lemma replace_scan_match (s : pystr) :
  replace_scan (">"%char :: "<"%char :: s) (py "><") sep 0
  = ">"%char :: NL :: "<"%char :: replace_scan s (py "><") sep 0.
Proof.
  assert (T : startswith (">"%char :: "<"%char :: s) (py "><") = true)
    by (apply startswith_gt_lt; eauto).
  cbn [replace_scan]. rewrite T. reflexivity.
Qed.

Lemma replace_scan_copy (c : ascii) (s : pystr) :
  startswith (c :: s) (py "><") = false ->
  replace_scan (c :: s) (py "><") sep 0
  = c :: replace_scan s (py "><") sep 0.
Proof. intros E. cbn [replace_scan]. rewrite E. reflexivity. Qed.

(** A phrase without newline and without "><" begins the preprocessed text
    exactly when it begins the text. *)
Lemma startswith_replace_scan (q : pystr) :
  ~ In NL q -> contains q (py "><") = false ->
  forall s, startswith (replace_scan s (py "><") sep 0) q = startswith s q.
Proof.
  induction q as [|a q IH]; intros Hn Hs s.
  - rewrite !startswith_nil_r. reflexivity.
  - apply contains_cons_false in Hs as [Hs0 Hs1].
    assert (Hn' : ~ In NL q) by (intros H; apply Hn; right; exact H).
    destruct s as [|c s]; [reflexivity|].
    destruct (startswith (c :: s) (py "><")) eqn:E.
    + apply startswith_gt_lt in E as [r E]. injection E as -> ->.
      rewrite replace_scan_match. cbn [startswith].
      destruct (Ascii.eqb a ">") eqn:Ea; [|reflexivity]. cbn [andb].
      apply Ascii.eqb_eq in Ea. subst a.
      destruct q as [|b q]; [reflexivity|]. cbn [startswith].
      destruct (Ascii.eqb b NL) eqn:Eb.
      * apply Ascii.eqb_eq in Eb. subst b. exfalso. apply Hn'. left.
        reflexivity.
      * destruct (Ascii.eqb b "<") eqn:Ec; [|reflexivity].
        apply Ascii.eqb_eq in Ec. subst b.
        assert (T : startswith (">"%char :: "<"%char :: q) (py "><") = true)
          by (apply startswith_gt_lt; eauto).
        congruence.
    + rewrite (replace_scan_copy c s E). cbn [startswith].
      rewrite (IH Hn' Hs1 s). reflexivity.
Qed.

Lemma contains_tail (c : ascii) (s q : pystr) :
  contains s q = true -> contains (c :: s) q = true.
Proof.
  intros H. destruct (contains (c :: s) q) eqn:E; [reflexivity|].
  apply contains_cons_false in E as [_ E]. congruence.
Qed.

Lemma contains_here (s q : pystr) :
  startswith s q = true -> contains s q = true.
Proof.
  intros H. unfold contains. rewrite (find_index_here _ _ H). reflexivity.
Qed.

Lemma contains_replace_scan (s : pystr) :
  contains (replace_scan s (py "><") sep 0) p = contains s p /\
  contains (replace_scan (tl s) (py "><") sep 0) p = contains (tl s) p.
Proof.
  induction s as [|c s [IH0 IH1]]; [split; reflexivity|].
  split; [|exact IH0]. cbn [tl] in IH1.
  destruct (startswith (c :: s) (py "><")) eqn:E.
  - apply startswith_gt_lt in E as [r E]. injection E as -> ->.
    cbn [tl] in IH1. rewrite replace_scan_lt in IH0.
    destruct (contains (">"%char :: "<"%char :: r) p) eqn:C.
    + destruct (startswith (">"%char :: "<"%char :: r) p) eqn:S.
      * apply contains_here.
        rewrite (startswith_replace_scan p p_no_NL p_no_seam). exact S.
      * assert (C' : contains ("<"%char :: r) p = true).
        { destruct (contains ("<"%char :: r) p) eqn:C'; [reflexivity|].
          assert (contains (">"%char :: "<"%char :: r) p = false)
            by (apply contains_cons_false; auto).
          congruence. }
        rewrite replace_scan_match.
        apply contains_tail, contains_tail. rewrite IH0. exact C'.
    + apply contains_cons_false in C as [S C].
      rewrite replace_scan_match.
      apply contains_cons_false. split.
      * rewrite <- replace_scan_match.
        rewrite (startswith_replace_scan p p_no_NL p_no_seam). exact S.
      * apply contains_cons_false. split.
        -- destruct p as [|a q]; [discriminate S|]. cbn [startswith].
           destruct (Ascii.eqb a NL) eqn:Ea; [|reflexivity].
           apply Ascii.eqb_eq in Ea. subst a. exfalso. apply p_no_NL.
           left. reflexivity.
        -- rewrite IH0. exact C.
  - rewrite (replace_scan_copy c s E).
    destruct (contains (c :: s) p) eqn:C.
    + destruct (startswith (c :: s) p) eqn:S.
      * apply contains_here. rewrite <- (replace_scan_copy c s E).
        rewrite (startswith_replace_scan p p_no_NL p_no_seam). exact S.
      * apply contains_tail. rewrite IH0.
        destruct (contains s p) eqn:C'; [reflexivity|].
        assert (contains (c :: s) p = false)
          by (apply contains_cons_false; auto).
        congruence.
    + apply contains_cons_false in C as [S C].
      apply contains_cons_false. split.
      * rewrite <- (replace_scan_copy c s E).
        rewrite (startswith_replace_scan p p_no_NL p_no_seam). exact S.
      * rewrite IH0. exact C.
Qed.

End Markers.

Lemma preprocessing_markers_aux (rawData : pystr) :
  contains (replace rawData (py "><") [">"%char; NL; "<"%char]) (py "<g")
  = contains rawData (py "<g") /\
  contains (replace rawData (py "><") [">"%char; NL; "<"%char]) (py "</g>")
  = contains rawData (py "</g>").
Proof.
  split; apply contains_replace_scan;
    solve [vm_compute; intuition discriminate | reflexivity].
Qed.

(** X22. The preprocessing step neither makes nor unmakes a marker: a
    phrase without newline and without "><" in it (as "<g", "</g>",
    "technique", "tactic-label", "<tspan" and "</tspan" are) occurs in the
    preprocessed text exactly when it occurs in the text. *)
Theorem preprocessing_keeps_markers (rawData p : pystr) :
  ~ In NL p ->
  contains p (py "><") = false ->
  contains (replace rawData (py "><") [">"%char; NL; "<"%char]) p
  = contains rawData p.
Proof.
  intros Hn Hs. apply (contains_replace_scan p Hn Hs rawData).
Qed.

Lemma preprocessing_keeps_markers_witness :
  contains (replace (py "<g a><g b>x</g></g>") (py "><")
                    [">"%char; NL; "<"%char]) (py "</g>")
  = contains (py "<g a><g b>x</g></g>") (py "</g>").
Proof.
  apply (preprocessing_keeps_markers (py "<g a><g b>x</g></g>") (py "</g>")).
  - vm_compute. intuition discriminate.
  - reflexivity.
Defined.

(** X23. A download that lacks one of the two group markers gives no
    chunk, and the script ends well with nothing written. *)
Theorem script_without_groups (rawData : pystr) :
  contains rawData (py "<g") = false \/ contains rawData (py "</g>") = false ->
  script rawData = Some (Ok []).
Proof.
  intros H. unfold script, cutByPhrases.
  rewrite cut_loop_stops; [reflexivity|].
  apply cut_step_none. cbn [text].
  destruct (preprocessing_markers_aux rawData) as [-> ->]. exact H.
Qed.

Lemma script_without_groups_witness :
  script (py "<svg><text>technique</text></g></svg>") = Some (Ok []).
Proof.
  apply (script_without_groups (py "<svg><text>technique</text></g></svg>")).
  left. reflexivity.
Defined.

(** X24. On a document that already has its tags on separate lines (no
    "><" in it) and is written group by group, the script writes what the
    traversal, the normalizer and the writer make of the bodies of the
    groups: the preprocessing step changes nothing and the chunker gives
    back the bodies. *)
Theorem script_on_separated_document
        (groups : list (pystr * pystr)) (tail : pystr) :
  Forall plain_group groups ->
  contains tail (py "<g") = false ->
  contains (render_groups groups tail) (py "><") = false ->
  script (render_groups groups tail) = Some (tags_of_chunks (map snd groups)).
Proof.
  intros Hall Htail Hsep. unfold script.
  change (replace (render_groups groups tail) (py "><")
                  [">"%char; NL; "<"%char])
    with (replace_scan (render_groups groups tail) (py "><")
                       [">"%char; NL; "<"%char] 0).
  rewrite replace_scan_absent by (apply contains_false_find, Hsep).
  unfold cutByPhrases.
  rewrite (cut_loop_groups tail groups Hall Htail []) by lia.
  reflexivity.
Qed.

Lemma script_on_separated_document_witness :
  script (render_groups
            [(py "<svg>" ++ [NL], technique_chunk "T1: Alpha");
             ([NL], technique_chunk "T1.2: Beta");
             ([NL], tactic_label_chunk "Collection Micro-objective")]
            (NL :: py "</svg>"))
  = Some (tags_of_chunks
            (map snd
               [(py "<svg>" ++ [NL], technique_chunk "T1: Alpha");
                ([NL], technique_chunk "T1.2: Beta");
                ([NL], tactic_label_chunk "Collection Micro-objective")])) /\
  tags_of_chunks
    (map snd
       [(py "<svg>" ++ [NL], technique_chunk "T1: Alpha");
        ([NL], technique_chunk "T1.2: Beta");
        ([NL], tactic_label_chunk "Collection Micro-objective")])
  = Ok [py "Collection::Alpha T1" ++ [NL];
        py "Collection::Alpha::Beta T1.2" ++ [NL]].
Proof.
  split; [|vm_compute; reflexivity].
  apply (script_on_separated_document
           [(py "<svg>" ++ [NL], technique_chunk "T1: Alpha");
            ([NL], technique_chunk "T1.2: Beta");
            ([NL], tactic_label_chunk "Collection Micro-objective")]
           (NL :: py "</svg>")).
  - repeat constructor.
  - reflexivity.
  - vm_compute. reflexivity.
Defined.
